(** * The TCP connection manager of kit/tcp

    A shallow embedding of [tcp.go] and [handlers.go]: the manager struct,
    its registry of client connections, the accept routine started by
    [Start], and the operations [Stop], [Do], [DropConnections], [join]
    and [remove].

    The Go program is concurrent.  The embedding keeps one record for the
    [TCP] struct, a chronological log of the observable effects (events
    reported, sockets and listeners closed, work posted to the pools) and
    one program counter per routine.  A step of a routine covers one lock
    region, one atomic load or store, or one blocking call, so that the
    interleavings of the routines are those of the program. *)

From stdpp Require Import gmap strings list fin_maps pretty.
From Stdlib Require Import ZArith Lia Ascii.

Set Default Proof Using "Type".

(** ** Values of the net, time and pool packages *)

Definition error := string.
Definition Time := Z.
Definition Duration := Z.
Definition Listener := nat.
Definition Pool := nat.

(** The zero value of [time.Time]. *)
Definition zeroTime : Time := 0%Z.

(** [t.Add(d)] and [t.After(u)] on instants. *)
Definition Time_Add (t : Time) (d : Duration) : Time := (t + d)%Z.
Definition Time_After (t u : Time) : bool := bool_decide (u < t)%Z.

(** An accepted [net.Conn]: its identity and its two addresses, each in the
    form its [String] method prints. *)
Record Conn := mkConn {
  conn_id : nat;
  RemoteAddr : string;
  LocalAddr : string
}.

#[global] Instance Conn_eq_dec : EqDecision Conn.
Proof. solve_decision. Defined.

(** An error of the net package.  [Temporary] is [None] when the error
    value has no [Temporary() bool] method, and [Some b] when it has one
    that returns [b]. *)
Record neterror := mkNetError {
  Error : string;
  Temporary : option bool
}.

Record TCPAddr := mkTCPAddr {
  IP : string;
  Port : Z
}.

Record PoolConfig := mkPoolConfig {
  MinRoutines : Z;
  MaxRoutines : Z
}.

(** Modelled from the spec: the [Config] struct of config.go, with the
    fields that tcp.go reads.  Handlers are user code; of them the manager
    only calls [ConnHandler.Bind], which yields a reader and a writer. *)
Record Config := mkConfig {
  NetType : string;
  Addr : string;
  RecvPool : option Pool;
  SendPool : option Pool;
  RecvMinPoolSize : Z;
  RecvMaxPoolSize : Z;
  SendMinPoolSize : Z;
  SendMaxPoolSize : Z;
  RateLimit : option (unit -> Duration);
  Bind : string -> Conn -> nat * nat
}.

(** Modelled from the spec: the [client] struct of client.go, one accepted
    and bound socket, with the handle of its read pipeline (what [drop]
    waits on). *)
Record client := mkClient {
  c_context : string;
  c_conn : Conn;
  c_ipAddress : string;
  c_reader : nat;
  c_writer : nat;
  c_task : nat
}.

#[global] Instance client_eq_dec : EqDecision client.
Proof. solve_decision. Defined.

(** [Response] of handlers.go.  The three unexported fields are set by
    [Do]; [r_tcp] holds the name of the manager the response is bound to.
    [None] in [r_tcp] or [r_client] is a nil pointer. *)
Record Response := mkResponse {
  r_TCPAddr : string;
  r_Data : list Byte.byte;
  r_Length : Z;
  r_Complete : option nat;
  r_tcp : option string;
  r_client : option client;
  r_traceID : string
}.

(** [Request] of handlers.go; [q_TCP] holds the name of the manager the
    request points to, [None] for a nil pointer. *)
Record Request := mkRequest {
  q_TCP : option string;
  q_TCPAddr : string;
  q_IsIPv6 : bool;
  q_ReadAt : Time;
  q_Data : list Byte.byte;
  q_Length : Z
}.

Inductive Work :=
| WorkResponse (r : Response)
| WorkRequest (r : Request).

(** ** Observable effects *)

(** An argument of an event's format string. *)
Inductive arg :=
| AStr (s : string)
| AErr (e : error)
| ADur (d : Duration).

Inductive effect :=
| Event (traceID event format : string) (args : list arg)
| ListenTCP (l : Listener)
| ListenerClose (l : option Listener)
| ConnClose (c : Conn)
| PoolShutdown (p : Pool) (traceID : string)
| PoolDo (p : Pool) (traceID : string) (w : Work)
| GoAccept (traceID : string)
| GoRead (c : client)
| RespWrite (traceID : string) (r : Response) (writer : nat)
| RespComplete (callback : nat) (r : Response)
| ReqProcess (traceID : string) (r : Request)
| Return (op : string) (err : option error).

(** ** The manager *)

Record TCP := mkTCP {
  cfg : Config;
  Name : string;
  ipAddress : string;
  port : Z;
  tcpAddr : TCPAddr;
  listener : option Listener;
  clients : gmap string client;
  recv : Pool;
  send : Pool;
  userPools : bool;
  wg : Z;
  dropConns : Z;
  shuttingDown : Z;
  lastAcceptedConnection : Time
}.

Definition set_listener (l : option Listener) (t : TCP) : TCP :=
  mkTCP (cfg t) (Name t) (ipAddress t) (port t) (tcpAddr t) l (clients t)
        (recv t) (send t) (userPools t) (wg t) (dropConns t) (shuttingDown t)
        (lastAcceptedConnection t).

Definition set_clients (m : gmap string client) (t : TCP) : TCP :=
  mkTCP (cfg t) (Name t) (ipAddress t) (port t) (tcpAddr t) (listener t) m
        (recv t) (send t) (userPools t) (wg t) (dropConns t) (shuttingDown t)
        (lastAcceptedConnection t).

Definition set_wg (n : Z) (t : TCP) : TCP :=
  mkTCP (cfg t) (Name t) (ipAddress t) (port t) (tcpAddr t) (listener t)
        (clients t) (recv t) (send t) (userPools t) n (dropConns t)
        (shuttingDown t) (lastAcceptedConnection t).

Definition set_dropConns (n : Z) (t : TCP) : TCP :=
  mkTCP (cfg t) (Name t) (ipAddress t) (port t) (tcpAddr t) (listener t)
        (clients t) (recv t) (send t) (userPools t) (wg t) n
        (shuttingDown t) (lastAcceptedConnection t).

Definition set_shuttingDown (n : Z) (t : TCP) : TCP :=
  mkTCP (cfg t) (Name t) (ipAddress t) (port t) (tcpAddr t) (listener t)
        (clients t) (recv t) (send t) (userPools t) (wg t) (dropConns t) n
        (lastAcceptedConnection t).

Definition set_lastAcceptedConnection (now : Time) (t : TCP) : TCP :=
  mkTCP (cfg t) (Name t) (ipAddress t) (port t) (tcpAddr t) (listener t)
        (clients t) (recv t) (send t) (userPools t) (wg t) (dropConns t)
        (shuttingDown t) now.

(** *** New *)

Section Construction.
(** [cfg.Validate], [net.ResolveTCPAddr] and [pool.New] live outside
    tcp.go; [New] is embedded over whatever they compute. *)
Variable Validate : Config -> option error.
Variable ResolveTCPAddr : string -> string -> error + TCPAddr.
Variable pool_New : string -> string -> PoolConfig -> error + Pool.

Definition New (traceID name : string) (c : Config) : error + TCP :=
  match Validate c with
  | Some err => inl err
  | None =>
    match ResolveTCPAddr (NetType c) (Addr c) with
    | inl err => inl err
    | inr addr =>
      let recv_r :=
        match RecvPool c with
        | Some p => inr p
        | None => pool_New traceID (name +:+ "-Recv")
                    (mkPoolConfig (RecvMinPoolSize c) (RecvMaxPoolSize c))
        end in
      match recv_r with
      | inl err => inl err
      | inr recv_p =>
        let send_r :=
          match SendPool c with
          | Some p => inr p
          | None => pool_New traceID (name +:+ "-Send")
                      (mkPoolConfig (SendMinPoolSize c) (SendMaxPoolSize c))
          end in
        match send_r with
        | inl err => inl err
        | inr send_p =>
          let userPools := match RecvPool c with Some _ => true | None => false end in
          inr (mkTCP c name (IP addr) (Port addr) addr None ∅
                     recv_p send_p userPools 0%Z 0%Z 0%Z zeroTime)
        end
      end
    end
  end.
End Construction.

(** [join(ip, port)]: [net.JoinHostPort(ip, strconv.Itoa(port))].  A host
    that contains a colon is put in brackets. *)
Fixpoint has_colon (s : string) : bool :=
  match s with
  | EmptyString => false
  | String a s' => if Ascii.eqb a ":"%char then true else has_colon s'
  end.

Definition JoinHostPort (host p : string) : string :=
  if has_colon host then "[" +:+ host +:+ "]:" +:+ p
  else host +:+ ":" +:+ p.

Definition join_host (ip : string) (p : Z) : string :=
  JoinHostPort ip (pretty p).

(** ** Routines *)

(** Where the accept routine of [Start] stands (lines of tcp.go). *)
Inductive accept_pc :=
| AcceptTop                      (* 153: head of the loop, listener lock *)
| AcceptWait                     (* 174: listener.Accept() *)
| AcceptFailed (e : neterror)    (* 176: load of shuttingDown *)
| AcceptClear                    (* 181: t.listener = nil, break *)
| AcceptReported (e : neterror)  (* 195: is the error permanent *)
| AcceptRearm                    (* 206: waitStart.Add(1) *)
| AcceptGot (c : Conn)           (* 213: load of dropConns *)
| AcceptLimit (c : Conn)         (* 220: rate limit *)
| AcceptJoin (c : Conn)          (* 236: t.join *)
| AcceptBreak                    (* 240: t.wg.Done() *)
| AcceptShutdown                 (* 241: the last event *)
| AcceptDone.

(** One accept routine: the trace id it was started with, its local
    variable [listener], the [waitStart] group it shares with the caller
    of [Start], and its position. *)
Record AcceptTask := mkTask {
  a_traceID : string;
  a_listener : option Listener;
  a_waitStart : Z;
  a_pc : accept_pc
}.

Inductive pipe_state := Reading | Exited.

(** Modelled from the spec: the read pipeline of a client connection,
    started when the client is created (client.go). *)
Record Pipeline := mkPipe {
  p_client : client;
  p_state : pipe_state
}.

(** Where the caller of [Start] or [Stop] stands. *)
Inductive caller_pc :=
| Idle
| StartSpawn (traceID : string)                (* 142-149 *)
| StartWait (traceID : string) (i : nat)       (* 245: waitStart.Wait() *)
| StopMark (traceID : string)                  (* 263 *)
| StopClose (traceID : string)                 (* 266 *)
| StopPools (traceID : string)                 (* 273 *)
| StopSnapshot (traceID : string)              (* 282 *)
| StopDrop (traceID : string) (rest : gmap string client)   (* 292 *)
| StopDropWait (traceID : string) (c : client) (rest : gmap string client)
| StopWait (traceID : string).                 (* 298: t.wg.Wait() *)

(** What a call of [Stop] has done so far, in program order. *)
Inductive action :=
| SetShuttingDown
| CloseListener (l : option Listener)
| ShutdownPool (p : Pool)
| Snapshot (m : gmap string client)
| DropClose (c : client)
| DropWaited (c : client)
| AcceptWaited.

(** The whole system: the manager, the log of effects, the accept
    routines, the read pipelines, the caller, and [hist], the record of
    the actions of the call of [Stop] in progress (or of the last one). *)
Record Sys := mkSys {
  tcp : TCP;
  trace : list effect;
  tasks : list AcceptTask;
  pipes : list Pipeline;
  caller : caller_pc;
  hist : list action;
  panicked : option string
}.

Definition upd_tcp (f : TCP -> TCP) (s : Sys) : Sys :=
  mkSys (f (tcp s)) (trace s) (tasks s) (pipes s) (caller s) (hist s) (panicked s).

Definition emit (es : list effect) (s : Sys) : Sys :=
  mkSys (tcp s) (trace s ++ es) (tasks s) (pipes s) (caller s) (hist s) (panicked s).

Definition set_tasks (ts : list AcceptTask) (s : Sys) : Sys :=
  mkSys (tcp s) (trace s) ts (pipes s) (caller s) (hist s) (panicked s).

Definition set_pipes (ps : list Pipeline) (s : Sys) : Sys :=
  mkSys (tcp s) (trace s) (tasks s) ps (caller s) (hist s) (panicked s).

Definition set_caller (c : caller_pc) (s : Sys) : Sys :=
  mkSys (tcp s) (trace s) (tasks s) (pipes s) c (hist s) (panicked s).

Definition panic (msg : string) (s : Sys) : Sys :=
  mkSys (tcp s) (trace s) (tasks s) (pipes s) (caller s) (hist s) (Some msg).

Definition set_hist (h : list action) (s : Sys) : Sys :=
  mkSys (tcp s) (trace s) (tasks s) (pipes s) (caller s) h (panicked s).

Definition did (a : list action) (s : Sys) : Sys :=
  set_hist (hist s ++ a) s.

Definition init (t : TCP) : Sys := mkSys t [] [] [] Idle [] None.

(** *** Client connections *)

(** Modelled from the spec: [newClient] of client.go binds the socket
    through the connection handler and starts the read pipeline. *)
Definition newClient (cntx : string) (conn : Conn) (s : Sys) : client * Sys :=
  let rw := Bind (cfg (tcp s)) cntx conn in
  let c := mkClient cntx conn (RemoteAddr conn) rw.1 rw.2 (length (pipes s)) in
  (c, set_pipes (pipes s ++ [mkPipe c Reading]) (emit [GoRead c] s)).

(** [join] (lines 362-383). *)
Definition join (traceID : string) (conn : Conn) (s : Sys) : Sys :=
  let ipAddress := RemoteAddr conn in
  let cntx := traceID +:+ "-" +:+ ipAddress in
  let s := emit [Event cntx "join" "Remote IPAddress[ %s ], Local IPAddress[ %v ]"
                   [AStr ipAddress; AStr (LocalAddr conn)]] s in
  match clients (tcp s) !! ipAddress with
  | Some _ =>
    let err := "IP Address already connected [ " +:+ ipAddress +:+ " ]" in
    emit [Event traceID "join" "ERROR : %v" [AErr err]; ConnClose conn] s
  | None =>
    let '(c, s) := newClient cntx conn s in
    upd_tcp (fun t => set_clients (<[ipAddress := c]> (clients t)) t) s
  end.

(** [remove] (lines 386-408). *)
Definition remove (traceID : string) (conn : Conn) (s : Sys) : Sys :=
  let ipAddress := RemoteAddr conn in
  let s := emit [Event traceID "remove" "IPAddress[ %s ]" [AStr ipAddress]] s in
  match clients (tcp s) !! ipAddress with
  | None =>
    let err := "IP Address already removed [ " +:+ ipAddress +:+ " ]" in
    emit [Event traceID "remove" "ERROR : %v" [AErr err]] s
  | Some _ =>
    emit [ConnClose conn]
      (upd_tcp (fun t => set_clients (delete ipAddress (clients t)) t) s)
  end.

(** *** Do and DropConnections *)

Definition attach (t : TCP) (c : client) (traceID : string) (r : Response) : Response :=
  mkResponse (r_TCPAddr r) (r_Data r) (r_Length r) (r_Complete r)
             (Some (Name t)) (Some c) traceID.

(** [Do] (lines 304-327): the error returned, the response as [Do] leaves
    it, and the state. *)
Definition Do (traceID : string) (r : Response) (s : Sys) : option error * Response * Sys :=
  match clients (tcp s) !! r_TCPAddr r with
  | None => (Some ("IP Address disconnected [ " +:+ r_TCPAddr r +:+ " ]"), r, s)
  | Some c =>
    let r := attach (tcp s) c traceID r in
    (None, r, emit [PoolDo (send (tcp s)) traceID (WorkResponse r)] s)
  end.

(** [DropConnections] (lines 331-338). *)
Definition DropConnections (traceID : string) (drop : bool) (s : Sys) : Sys :=
  if drop then upd_tcp (set_dropConns 1) s
  else upd_tcp (set_dropConns 0) s.

(** What the Go runtime panics with when a nil pointer is dereferenced. *)
Definition ErrNilPointer : string :=
  "runtime error: invalid memory address or nil pointer dereference".

(** [Response.Work] (handlers.go, lines 78-83), run by a routine of the
    send pool.  Line 79 reads [r.tcp.RespHandler] and then
    [r.client.writer]; a response that never went through [Do] has
    neither manager nor client.  The handler itself is user code: [Write]
    is recorded as an effect. *)
Definition Response_Work (traceID : string) (id : Z) (r : Response) (s : Sys) : Sys :=
  match r_tcp r with
  | None => panic ErrNilPointer s
  | Some _ =>
    match r_client r with
    | None => panic ErrNilPointer s
    | Some c =>
      let s := emit [RespWrite traceID r (c_writer c)] s in
      match r_Complete r with
      | Some k => emit [RespComplete k r] s
      | None => s
      end
    end
  end.

(** [Request.Work] (handlers.go, lines 50-52); line 51 reads
    [r.TCP.ReqHandler]. *)
Definition Request_Work (traceID : string) (id : Z) (r : Request) (s : Sys) : Sys :=
  match q_TCP r with
  | None => panic ErrNilPointer s
  | Some _ => emit [ReqProcess traceID r] s
  end.

(** ** The accept routine *)

(** What the environment hands to a step: the outcome of [net.ListenTCP],
    of [listener.Accept], of [time.Now], of the read handler, and the key
    that a [range] over a map visits next. *)
Record Oracle := mkOracle {
  o_listen : neterror + Listener;
  o_accept : neterror + Conn;
  o_now : Time;
  o_read : neterror + Request;
  o_pick : string
}.

Definition at_pc (pc : accept_pc) (a : AcceptTask) : AcceptTask :=
  mkTask (a_traceID a) (a_listener a) (a_waitStart a) pc.

(** [err.(temporary)] holds and [Temporary()] is false (line 195). *)
Definition permanent (e : neterror) : bool :=
  match Temporary e with
  | Some false => true
  | _ => false
  end.

(** One step of the routine started at line 149. *)
Definition accept_body (o : Oracle) (a : AcceptTask) (s : Sys) : AcceptTask * Sys :=
  let traceID := a_traceID a in
  match a_pc a with
  | AcceptTop =>
    match listener (tcp s) with
    | None =>
      match o_listen o with
      | inl err => (a, panic (Error err) s)
      | inr l =>
        let s := upd_tcp (set_listener (Some l)) (emit [ListenTCP l] s) in
        if (a_waitStart a <=? 0)%Z
        then (mkTask traceID (Some l) (a_waitStart a) AcceptTop,
              panic "sync: negative WaitGroup counter" s)
        else (mkTask traceID (Some l) (a_waitStart a - 1) AcceptWait,
              emit [Event traceID "accept" "Waiting For Connections : IPAddress[ %s ]"
                      [AStr (join_host (ipAddress (tcp s)) (port (tcp s)))]] s)
      end
    | Some _ => (at_pc AcceptWait a, s)
    end
  | AcceptWait =>
    match o_accept o with
    | inl err => (at_pc (AcceptFailed err) a, s)
    | inr conn => (at_pc (AcceptGot conn) a, s)
    end
  | AcceptFailed err =>
    if (shuttingDown (tcp s) =? 0)%Z
    then (at_pc (AcceptReported err) a,
          emit [Event traceID "accept" "ERROR : %v" [AErr (Error err)]] s)
    else (at_pc AcceptClear a, s)
  | AcceptClear =>
    (at_pc AcceptBreak a, upd_tcp (set_listener None) s)
  | AcceptReported err =>
    if permanent err
    then (at_pc AcceptRearm a,
          upd_tcp (set_listener None) (emit [ListenerClose (listener (tcp s))] s))
    else (at_pc AcceptTop a, s)
  | AcceptRearm =>
    (mkTask traceID (a_listener a) (a_waitStart a + 1) AcceptTop, s)
  | AcceptGot conn =>
    if (dropConns (tcp s) =? 1)%Z
    then (at_pc AcceptTop a,
          emit [Event traceID "accept" "*******> DROPPING CONNECTION" [];
                ConnClose conn] s)
    else (at_pc (AcceptLimit conn) a, s)
  | AcceptLimit conn =>
    match RateLimit (cfg (tcp s)) with
    | Some limit =>
      let now := o_now o in
      if Time_After (Time_Add (lastAcceptedConnection (tcp s)) (limit ())) now
      then (at_pc AcceptTop a,
            emit [Event traceID "accept"
                    "*******> DROPPING CONNECTION Local[ %v ] Remote[ %v ] DUE TO RATE LIMIT %v"
                    [AStr (LocalAddr conn); AStr (RemoteAddr conn); ADur (limit ())];
                  ConnClose conn] s)
      else (at_pc (AcceptJoin conn) a,
            upd_tcp (set_lastAcceptedConnection now) s)
    | None => (at_pc (AcceptJoin conn) a, s)
    end
  | AcceptJoin conn =>
    (at_pc AcceptTop a, join traceID conn s)
  | AcceptBreak =>
    if (wg (tcp s) <=? 0)%Z
    then (a, panic "sync: negative WaitGroup counter" s)
    else (at_pc AcceptShutdown a, upd_tcp (fun t => set_wg (wg t - 1) t) s)
  | AcceptShutdown =>
    (at_pc AcceptDone a,
     emit [Event traceID "accept" "Shutdown : IPAddress[ %s ]"
             [AStr (join_host (ipAddress (tcp s)) (port (tcp s)))]] s)
  | AcceptDone => (a, s)
  end.

Definition accept_enabled (a : AcceptTask) : bool :=
  match a_pc a with
  | AcceptDone => false
  | _ => true
  end.

Definition accept_step (o : Oracle) (i : nat) (s : Sys) : option Sys :=
  match tasks s !! i with
  | Some a =>
    if accept_enabled a then
      let '(a', s') := accept_body o a s in
      Some (set_tasks (<[i := a']> (tasks s')) s')
    else None
  | None => None
  end.

(** ** The read pipeline *)

(** Modelled from the spec: a read that ends the stream or fails for good
    ends the pipeline. *)
Definition ends_pipeline (e : neterror) : bool :=
  String.eqb (Error e) "EOF" || permanent e.

(** Modelled from the spec: one round of the read pipeline of client.go.
    A request read is posted to the receive pool; when the pipeline ends
    the connection removes itself from the registry and the routine
    exits. *)
Definition pipe_body (o : Oracle) (p : Pipeline) (s : Sys) : Pipeline * Sys :=
  let c := p_client p in
  match o_read o with
  | inr req => (p, emit [PoolDo (recv (tcp s)) (c_context c) (WorkRequest req)] s)
  | inl err =>
    if ends_pipeline err
    then (mkPipe c Exited, remove (c_context c) (c_conn c) s)
    else (p, s)
  end.

Definition pipe_step (o : Oracle) (k : nat) (s : Sys) : option Sys :=
  match pipes s !! k with
  | Some p =>
    match p_state p with
    | Reading =>
      let '(p', s') := pipe_body o p s in
      Some (set_pipes (<[k := p']> (pipes s')) s')
    | Exited => None
    end
  | None => None
  end.

(** Has the read pipeline of [c] exited. *)
Definition pipe_exited (c : client) (ps : list Pipeline) : bool :=
  match ps !! c_task c with
  | Some p => match p_state p with Exited => true | Reading => false end
  | None => false
  end.

(** ** Start and Stop *)

(** The first lock region of [Start] (lines 132-140). *)
Definition Start_check (traceID : string) (s : Sys) : Sys :=
  match listener (tcp s) with
  | Some _ => emit [Return "Start" (Some "This TCP has already been started")] s
  | None => set_caller (StartSpawn traceID) s
  end.

(** The first lock region of [Stop] (lines 252-260). *)
Definition Stop_check (traceID : string) (s : Sys) : Sys :=
  match listener (tcp s) with
  | None => emit [Return "Stop" (Some "This TCP has already been stopped")] s
  | Some _ => set_hist [] (set_caller (StopMark traceID) s)
  end.

(** Modelled from the spec: [c.drop()] of client.go closes the socket and
    then waits for the read pipeline; the two halves are the steps
    [StopDrop] and [StopDropWait]. *)
Definition drop_close (c : client) (s : Sys) : Sys :=
  emit [ConnClose (c_conn c)] s.

(** One step of the caller inside [Start] or [Stop]; [None] when the
    caller is blocked or has no call in progress. *)
Definition caller_step (o : Oracle) (s : Sys) : option Sys :=
  match caller s with
  | Idle => None
  | StartSpawn traceID =>
    let i := length (tasks s) in
    let s := upd_tcp (fun t => set_wg (wg t + 1) t) s in
    let s := set_tasks (tasks s ++ [mkTask traceID None 1 AcceptTop])
               (emit [GoAccept traceID] s) in
    Some (set_caller (StartWait traceID i) s)
  | StartWait traceID i =>
    match tasks s !! i with
    | Some a =>
      if (a_waitStart a =? 0)%Z
      then Some (set_caller Idle (emit [Return "Start" None] s))
      else None
    | None => None
    end
  | StopMark traceID =>
    Some (set_caller (StopClose traceID)
            (did [SetShuttingDown] (upd_tcp (set_shuttingDown 1) s)))
  | StopClose traceID =>
    Some (set_caller (StopPools traceID)
            (did [CloseListener (listener (tcp s))]
               (emit [ListenerClose (listener (tcp s))] s)))
  | StopPools traceID =>
    let s := if userPools (tcp s) then s
             else did [ShutdownPool (recv (tcp s)); ShutdownPool (send (tcp s))]
                    (emit [PoolShutdown (recv (tcp s)) traceID;
                           PoolShutdown (send (tcp s)) traceID] s) in
    Some (set_caller (StopSnapshot traceID) s)
  | StopSnapshot traceID =>
    Some (set_caller (StopDrop traceID (clients (tcp s)))
            (did [Snapshot (clients (tcp s))] s))
  | StopDrop traceID rest =>
    if decide (rest = ∅)
    then Some (set_caller (StopWait traceID) s)
    else match rest !! o_pick o with
         | Some c =>
           Some (set_caller (StopDropWait traceID c (delete (o_pick o) rest))
                   (did [DropClose c] (drop_close c s)))
         | None => None
         end
  | StopDropWait traceID c rest =>
    if pipe_exited c (pipes s)
    then Some (set_caller (StopDrop traceID rest) (did [DropWaited c] s))
    else None
  | StopWait traceID =>
    if (wg (tcp s) =? 0)%Z
    then Some (set_caller Idle (did [AcceptWaited] (emit [Return "Stop" None] s)))
    else None
  end.

(** ** The system *)

Inductive label :=
| LStart (traceID : string)
| LStop (traceID : string)
| LCaller
| LAccept (i : nat)
| LPipe (k : nat)
| LDo (traceID : string) (r : Response)
| LDropConnections (traceID : string) (drop : bool).

Definition is_idle (c : caller_pc) : bool :=
  match c with
  | Idle => true
  | _ => false
  end.

Definition step (o : Oracle) (l : label) (s : Sys) : option Sys :=
  match panicked s with
  | Some _ => None
  | None =>
    match l with
    | LStart traceID =>
      if is_idle (caller s) then Some (Start_check traceID s) else None
    | LStop traceID =>
      if is_idle (caller s) then Some (Stop_check traceID s) else None
    | LCaller => caller_step o s
    | LAccept i => accept_step o i s
    | LPipe k => pipe_step o k s
    | LDo traceID r =>
      let '(err, _, s') := Do traceID r s in
      Some (emit [Return "Do" err] s')
    | LDropConnections traceID drop => Some (DropConnections traceID drop s)
    end
  end.

Fixpoint run (ls : list (Oracle * label)) (s : Sys) : option Sys :=
  match ls with
  | [] => Some s
  | (o, l) :: ls' =>
    match step o l s with
    | Some s' => run ls' s'
    | None => None
    end
  end.

(** A manager as [New] leaves it. *)
Definition constructed (t : TCP) : Prop :=
  listener t = None /\ clients t = ∅ /\ wg t = 0%Z /\
  dropConns t = 0%Z /\ shuttingDown t = 0%Z /\
  lastAcceptedConnection t = zeroTime.

Definition reachable (t : TCP) (s : Sys) : Prop :=
  exists ls, run ls (init t) = Some s.

(** The effects a transition from [s] to [s'] appended to the log. *)
Definition effects_since (s s' : Sys) : list effect :=
  drop (length (trace s)) (trace s').

(** Every registered client sits under its own remote address. *)
Definition registry_ok (t : TCP) : Prop :=
  forall k c, clients t !! k = Some c -> c_ipAddress c = k.

(** The client connections registered for the address [a]. *)
Definition clients_at (a : string) (t : TCP) : list client :=
  filter (fun c => c_ipAddress c = a) (map_to_list (clients t)).*2.

(** A sequence of accepted connections handed to [join] one by one. *)
Definition joins (traceID : string) (conns : list Conn) (s : Sys) : Sys :=
  foldl (fun s conn => join traceID conn s) s conns.

(** The error variables of tcp.go (lines 16-23). *)
Definition ErrInvalidConfiguration : error := "Invalid Configuration".
Definition ErrInvalidNetType : error := "Invalid NetType Configuration".
Definition ErrInvalidConnHandler : error := "Invalid Connection Handler Configuration".
Definition ErrInvalidReqHandler : error := "Invalid Request Handler Configuration".
Definition ErrInvalidRespHandler : error := "Invalid Response Handler Configuration".
Definition ErrInvalidPoolConfiguration : error := "Invalid Pool Configuration".

(** Modelled from the spec: [Config.Validate] of config.go.  Of the four
    kinds of failure the spec lists, these are the two that the fields of
    [Config] kept here can show: the network type is one of the two TCP
    families, and the two pools are supplied together or not at all.  The
    handlers are not fields of this [Config], and the spec gives no rule
    for the pool sizes.  [New] is embedded over any [Validate]; this one
    only serves the demo manager. *)
Definition Validate_spec (c : Config) : option error :=
  if negb (String.eqb (NetType c) "tcp4" || String.eqb (NetType c) "tcp6")
  then Some ErrInvalidNetType
  else match RecvPool c, SendPool c with
       | Some _, None | None, Some _ => Some ErrInvalidPoolConfiguration
       | _, _ => None
       end.

(** * Properties *)

(** ** Small facts about the log *)

Lemma effects_since_app (s s' : Sys) (es : list effect) :
  trace s' = trace s ++ es -> effects_since s s' = es.
Proof.
  intros H. unfold effects_since. rewrite H. apply drop_app_length.
Qed.

Lemma effects_since_emit (es : list effect) (s : Sys) :
  effects_since s (emit es s) = es.
Proof. by apply effects_since_app. Qed.

Lemma effects_since_refl (s : Sys) : effects_since s s = [].
Proof. apply effects_since_app. by rewrite app_nil_r. Qed.

(** ** remove *)

Lemma remove_absent (traceID : string) (conn : Conn) (s : Sys) :
  clients (tcp s) !! RemoteAddr conn = None ->
  remove traceID conn s =
  emit [Event traceID "remove" "IPAddress[ %s ]" [AStr (RemoteAddr conn)];
        Event traceID "remove" "ERROR : %v"
          [AErr ("IP Address already removed [ " +:+ RemoteAddr conn +:+ " ]")]] s.
Proof.
  intros H. unfold remove. cbn. rewrite H. unfold emit. cbn.
  by rewrite <- app_assoc.
Qed.

Lemma remove_present (traceID : string) (conn : Conn) (s : Sys) (c : client) :
  clients (tcp s) !! RemoteAddr conn = Some c ->
  remove traceID conn s =
  emit [Event traceID "remove" "IPAddress[ %s ]" [AStr (RemoteAddr conn)];
        ConnClose conn]
    (upd_tcp (fun t => set_clients (delete (RemoteAddr conn) (clients t)) t) s).
Proof.
  intros H. unfold remove. cbn. rewrite H. unfold emit, upd_tcp. cbn.
  by rewrite <- app_assoc.
Qed.

(** C7: [remove] for an address that is not registered reports the
    conflict through the event callback and does nothing else: the manager
    is unchanged and no socket is closed.  For a registered address it
    deletes that entry (and no other) and closes the socket of the
    connection. *)
Theorem remove_missing_or_present (traceID : string) (conn : Conn) (s : Sys) :
  let ip := RemoteAddr conn in
  let s' := remove traceID conn s in
  (clients (tcp s) !! ip = None ->
     tcp s' = tcp s /\
     effects_since s s' =
       [Event traceID "remove" "IPAddress[ %s ]" [AStr ip];
        Event traceID "remove" "ERROR : %v"
          [AErr ("IP Address already removed [ " +:+ ip +:+ " ]")]] /\
     (forall c, ConnClose c ∉ effects_since s s')) /\
  (is_Some (clients (tcp s) !! ip) ->
     clients (tcp s') = delete ip (clients (tcp s)) /\
     clients (tcp s') !! ip = None /\
     (forall k, k <> ip -> clients (tcp s') !! k = clients (tcp s) !! k) /\
     effects_since s s' =
       [Event traceID "remove" "IPAddress[ %s ]" [AStr ip]; ConnClose conn]) /\
  tasks s' = tasks s /\ pipes s' = pipes s /\ caller s' = caller s /\
  panicked s' = panicked s.
Proof.
  intros ip s'. subst ip s'. split; [|split].
  - intros H. rewrite (remove_absent _ _ _ H), effects_since_emit.
    split; [done|]. split; [done|].
    intros c Hc. rewrite !elem_of_cons in Hc.
    destruct Hc as [Hc|[Hc|Hc]]; [discriminate..|]. by apply elem_of_nil in Hc.
  - intros [c H]. rewrite (remove_present _ _ _ _ H). cbn.
    split; [done|]. split; [apply lookup_delete_eq|].
    split; [|by apply effects_since_app].
    intros k Hk. by apply lookup_delete_ne.
  - destruct (clients (tcp s) !! RemoteAddr conn) as [c|] eqn:H.
    + by rewrite (remove_present _ _ _ _ H).
    + by rewrite (remove_absent _ _ _ H).
Qed.

(** ** Do *)

(** C4: [Do] for an address with no registered client returns the error
    saying that the address is not connected and leaves the system as it
    was, so nothing is posted to the send pool.  For a registered address
    it binds the manager, the client and the trace id to the response,
    posts that response to the send pool and returns nil; the write itself
    is not among the effects of [Do]: it is what [Response.Work] does when
    a routine of the pool runs the posted work. *)
Theorem Do_absent_or_present (traceID : string) (r : Response) (s : Sys) :
  (clients (tcp s) !! r_TCPAddr r = None ->
     Do traceID r s =
       (Some ("IP Address disconnected [ " +:+ r_TCPAddr r +:+ " ]"), r, s) /\
     forall p tid w, PoolDo p tid w ∉ effects_since s (Do traceID r s).2) /\
  (forall c, clients (tcp s) !! r_TCPAddr r = Some c ->
     exists r' s',
       Do traceID r s = (None, r', s') /\
       r_tcp r' = Some (Name (tcp s)) /\ r_client r' = Some c /\
       r_traceID r' = traceID /\
       r_TCPAddr r' = r_TCPAddr r /\ r_Data r' = r_Data r /\
       r_Length r' = r_Length r /\ r_Complete r' = r_Complete r /\
       tcp s' = tcp s /\ pipes s' = pipes s /\ tasks s' = tasks s /\
       effects_since s s' = [PoolDo (send (tcp s)) traceID (WorkResponse r')] /\
       forall tid id s2,
         effects_since s2 (Response_Work tid id r' s2) =
           RespWrite tid r' (c_writer c) ::
           match r_Complete r with
           | Some k => [RespComplete k r']
           | None => []
           end).
Proof.
  split.
  - intros H. unfold Do. rewrite H. split; [done|].
    intros p tid w. cbn. rewrite effects_since_refl. apply not_elem_of_nil.
  - intros c H. unfold Do. rewrite H.
    eexists _, _. split; [reflexivity|]. cbn.
    repeat (split; [reflexivity|]).
    split; [by apply effects_since_app|].
    intros tid id s2. unfold Response_Work. cbn.
    destruct (r_Complete r); apply effects_since_app; cbn;
      by rewrite <- ?app_assoc.
Qed.

(** ** join *)

Lemma join_present (traceID : string) (conn : Conn) (s : Sys) (c0 : client) :
  clients (tcp s) !! RemoteAddr conn = Some c0 ->
  join traceID conn s =
  emit [Event (traceID +:+ "-" +:+ RemoteAddr conn) "join"
          "Remote IPAddress[ %s ], Local IPAddress[ %v ]"
          [AStr (RemoteAddr conn); AStr (LocalAddr conn)];
        Event traceID "join" "ERROR : %v"
          [AErr ("IP Address already connected [ " +:+ RemoteAddr conn +:+ " ]")];
        ConnClose conn] s.
Proof.
  intros H. unfold join. cbn. rewrite H. unfold emit. cbn.
  by rewrite <- app_assoc.
Qed.

(** The client that [join] creates for a connection. *)
Definition joined_client (traceID : string) (conn : Conn) (s : Sys) : client :=
  let cntx := traceID +:+ "-" +:+ RemoteAddr conn in
  mkClient cntx conn (RemoteAddr conn)
    (Bind (cfg (tcp s)) cntx conn).1 (Bind (cfg (tcp s)) cntx conn).2
    (length (pipes s)).

Lemma join_absent (traceID : string) (conn : Conn) (s : Sys) :
  clients (tcp s) !! RemoteAddr conn = None ->
  let c := joined_client traceID conn s in
  tcp (join traceID conn s) =
    set_clients (<[RemoteAddr conn := c]> (clients (tcp s))) (tcp s) /\
  pipes (join traceID conn s) = pipes s ++ [mkPipe c Reading] /\
  trace (join traceID conn s) =
    trace s ++ [Event (traceID +:+ "-" +:+ RemoteAddr conn) "join"
                  "Remote IPAddress[ %s ], Local IPAddress[ %v ]"
                  [AStr (RemoteAddr conn); AStr (LocalAddr conn)];
                GoRead c] /\
  tasks (join traceID conn s) = tasks s /\
  caller (join traceID conn s) = caller s /\
  hist (join traceID conn s) = hist s /\
  panicked (join traceID conn s) = panicked s.
Proof.
  intros H c. unfold join. cbn. rewrite H. cbn.
  rewrite <- app_assoc. done.
Qed.

Lemma join_registry_ok (traceID : string) (conn : Conn) (s : Sys) :
  registry_ok (tcp s) -> registry_ok (tcp (join traceID conn s)).
Proof.
  intros Hok. destruct (clients (tcp s) !! RemoteAddr conn) as [c0|] eqn:H.
  - by rewrite (join_present _ _ _ _ H).
  - destruct (join_absent traceID conn s H) as [-> _].
    intros k c. cbn. rewrite lookup_insert. case_decide as Hk.
    + intros [= <-]. by subst k.
    + apply Hok.
Qed.

Lemma join_keeps (traceID : string) (conn : Conn) (s : Sys) (k : string) (c : client) :
  clients (tcp s) !! k = Some c ->
  clients (tcp (join traceID conn s)) !! k = Some c.
Proof.
  intros Hk. destruct (clients (tcp s) !! RemoteAddr conn) as [c0|] eqn:H.
  - by rewrite (join_present _ _ _ _ H).
  - destruct (join_absent traceID conn s H) as [-> _]. cbn.
    rewrite lookup_insert_ne; [done|]. intros Heq. rewrite <- Heq in Hk. congruence.
Qed.

Lemma filter_none {A} (P : A -> Prop) `{!forall x, Decision (P x)} (l : list A) :
  (forall x, x ∈ l -> ~ P x) -> filter P l = [].
Proof.
  induction l as [|x l IH]; [done|]. intros Hn.
  rewrite filter_cons_False; [|apply Hn; left].
  apply IH. intros y Hy. apply Hn. by right.
Qed.

Lemma one_per_address (a : string) (l : list (string * client)) :
  NoDup l.*1 ->
  (forall k c, (k, c) ∈ l -> c_ipAddress c = k) ->
  length (filter (fun c => c_ipAddress c = a) l.*2) <= 1.
Proof.
  induction l as [|[k c] l IH]; [cbn; lia|].
  cbn [fmap list_fmap fst snd]. intros Hnd Hok.
  apply NoDup_cons in Hnd as [Hk Hnd].
  assert (Hl : forall k' c', (k', c') ∈ l -> c_ipAddress c' = k')
    by (intros k' c' Hin; apply Hok; by right).
  destruct (decide (c_ipAddress c = a)) as [Ha|Ha].
  - rewrite filter_cons_True by done.
    rewrite filter_none; [cbn; lia|].
    intros c' Hc' Hc'a. apply list_elem_of_fmap in Hc' as [[k' c''] [-> Hin]].
    cbn in Hc'a. apply Hk. apply list_elem_of_fmap. exists (k', c''). split; [|done].
    cbn. rewrite <- (Hl _ _ Hin), Hc'a, <- Ha. symmetry. apply Hok. by left.
  - rewrite filter_cons_False by done. by apply IH.
Qed.

Lemma registry_one_per_address (a : string) (t : TCP) :
  registry_ok t -> length (clients_at a t) <= 1.
Proof.
  intros Hok. apply one_per_address.
  - apply NoDup_fst_map_to_list.
  - intros k c Hin. apply Hok. by apply elem_of_map_to_list.
Qed.

Lemma joins_snoc (traceID : string) (conns : list Conn) (conn : Conn) (s : Sys) :
  joins traceID (conns ++ [conn]) s = join traceID conn (joins traceID conns s).
Proof. unfold joins. by rewrite foldl_app. Qed.

(** C2: along every sequence of accepted connections handed to [join],
    each registered client sits under its own remote address and no
    address has two client connections, and a client that was registered
    stays registered.  A [join] for an address that is already registered
    closes the new socket, creates no client and leaves the manager, and so
    the original registration, as it was. *)
Theorem join_one_client_per_address (traceID : string) (conns : list Conn) (s : Sys) :
  registry_ok (tcp s) ->
  let s' := joins traceID conns s in
  registry_ok (tcp s') /\
  (forall a, length (clients_at a (tcp s')) <= 1) /\
  (forall k c, clients (tcp s) !! k = Some c -> clients (tcp s') !! k = Some c) /\
  (forall conn c0,
     clients (tcp s') !! RemoteAddr conn = Some c0 ->
     tcp (join traceID conn s') = tcp s' /\
     clients (tcp (join traceID conn s')) !! RemoteAddr conn = Some c0 /\
     pipes (join traceID conn s') = pipes s' /\
     effects_since s' (join traceID conn s') =
       [Event (traceID +:+ "-" +:+ RemoteAddr conn) "join"
          "Remote IPAddress[ %s ], Local IPAddress[ %v ]"
          [AStr (RemoteAddr conn); AStr (LocalAddr conn)];
        Event traceID "join" "ERROR : %v"
          [AErr ("IP Address already connected [ " +:+ RemoteAddr conn +:+ " ]")];
        ConnClose conn]).
Proof.
  intros Hok s'.
  assert (H : registry_ok (tcp s') /\
              forall k c, clients (tcp s) !! k = Some c ->
                          clients (tcp s') !! k = Some c).
  { subst s'. induction conns as [|conn conns IH] using rev_ind; [done|].
    rewrite joins_snoc. destruct IH as [IH1 IH2]. split.
    - by apply join_registry_ok.
    - intros k c Hk. by apply join_keeps, IH2. }
  destruct H as [H1 H2]. split; [done|]. split.
  { intros a. by apply registry_one_per_address. }
  split; [done|].
  intros conn c0 Hc0. rewrite (join_present _ _ _ _ Hc0).
  rewrite effects_since_emit. done.
Qed.

(** ** The accept routine on its own *)

(** The routine run for as many steps as there are oracles. *)
Fixpoint accept_run (os : list Oracle) (a : AcceptTask) (s : Sys) : AcceptTask * Sys :=
  match os with
  | [] => (a, s)
  | o :: os' => let '(a', s') := accept_body o a s in accept_run os' a' s'
  end.

(** The rest of an iteration once [Accept] has returned a connection
    (lines 212-236): the routine runs until it is back at the head of the
    loop. *)
Fixpoint until_top (n : nat) (o : Oracle) (a : AcceptTask) (s : Sys) : AcceptTask * Sys :=
  match n with
  | O => (a, s)
  | S n' =>
    match a_pc a with
    | AcceptGot _ | AcceptLimit _ | AcceptJoin _ =>
      let '(a', s') := accept_body o a s in until_top n' o a' s'
    | _ => (a, s)
    end
  end.

Definition serve (o : Oracle) (conn : Conn) (a : AcceptTask) (s : Sys) : AcceptTask * Sys :=
  until_top 3 o (at_pc (AcceptGot conn) a) s.

(** A sequence of accepted connections, each with the time at which the
    routine looks at the clock. *)
Definition arrival (now : Time) (conn : Conn) : Oracle :=
  mkOracle (inr 0) (inr conn) now (inl (mkNetError "EOF" None)) "".

Definition serve_all (a : AcceptTask) (arrivals : list (Time * Conn)) (s : Sys) : Sys :=
  foldl (fun s '(now, conn) => (serve (arrival now conn) conn a s).2) s arrivals.

Lemma serve_dropping (o : Oracle) (conn : Conn) (a : AcceptTask) (s : Sys) :
  dropConns (tcp s) = 1%Z ->
  serve o conn a s =
    (at_pc AcceptTop a,
     emit [Event (a_traceID a) "accept" "*******> DROPPING CONNECTION" [];
           ConnClose conn] s).
Proof. intros H. unfold serve. cbn. rewrite H. done. Qed.

Lemma serve_limited (o : Oracle) (conn : Conn) (a : AcceptTask) (s : Sys)
    (limit : unit -> Duration) :
  dropConns (tcp s) <> 1%Z ->
  RateLimit (cfg (tcp s)) = Some limit ->
  (o_now o < lastAcceptedConnection (tcp s) + limit ())%Z ->
  serve o conn a s =
    (at_pc AcceptTop a,
     emit [Event (a_traceID a) "accept"
             "*******> DROPPING CONNECTION Local[ %v ] Remote[ %v ] DUE TO RATE LIMIT %v"
             [AStr (LocalAddr conn); AStr (RemoteAddr conn); ADur (limit ())];
           ConnClose conn] s).
Proof.
  intros Hd Hl Hn. unfold serve. cbn.
  destruct (Z.eqb_spec (dropConns (tcp s)) 1) as [|_]; [done|]. cbn.
  rewrite Hl. unfold Time_After, Time_Add. rewrite bool_decide_eq_true_2 by done.
  done.
Qed.

Lemma serve_passed (o : Oracle) (conn : Conn) (a : AcceptTask) (s : Sys)
    (limit : unit -> Duration) :
  dropConns (tcp s) <> 1%Z ->
  RateLimit (cfg (tcp s)) = Some limit ->
  (lastAcceptedConnection (tcp s) + limit () <= o_now o)%Z ->
  serve o conn a s =
    (at_pc AcceptTop a,
     join (a_traceID a) conn (upd_tcp (set_lastAcceptedConnection (o_now o)) s)).
Proof.
  intros Hd Hl Hn. unfold serve. cbn.
  destruct (Z.eqb_spec (dropConns (tcp s)) 1) as [|_]; [done|]. cbn.
  rewrite Hl. unfold Time_After, Time_Add. rewrite bool_decide_eq_false_2 by lia.
  done.
Qed.

Lemma serve_unlimited (o : Oracle) (conn : Conn) (a : AcceptTask) (s : Sys) :
  dropConns (tcp s) <> 1%Z ->
  RateLimit (cfg (tcp s)) = None ->
  serve o conn a s = (at_pc AcceptTop a, join (a_traceID a) conn s).
Proof.
  intros Hd Hl. unfold serve. cbn.
  destruct (Z.eqb_spec (dropConns (tcp s)) 1) as [|_]; [done|]. cbn.
  rewrite Hl. done.
Qed.

(** C5: what the routine does when [Accept] fails.  With the
    shutting-down flag set it reports nothing, clears the listener of the
    manager and leaves the loop.  With the flag clear it reports the error
    through the event callback and then looks at the error itself.  An
    error that the net package marks as not temporary (it has a
    [Temporary()] method and the method returns false) is permanent: the
    routine closes and clears the listener and adds one to [waitStart], so
    that the next iteration binds a new listener and its [Done] finds the
    group armed.  An error marked temporary, and also an error without
    that method, is transient: the listener stays where it is and the next
    iteration goes straight back to [Accept]. *)
Theorem accept_error (o1 o2 o3 o4 : Oracle) (e : neterror) (a : AcceptTask) (s : Sys) :
  let a0 := at_pc (AcceptFailed e) a in
  let report := Event (a_traceID a) "accept" "ERROR : %v" [AErr (Error e)] in
  (shuttingDown (tcp s) <> 0%Z ->
     accept_run [o1; o2] a0 s =
       (at_pc AcceptBreak a, upd_tcp (set_listener None) s)) /\
  (shuttingDown (tcp s) = 0%Z -> Temporary e = Some false ->
     accept_run [o1; o2; o3] a0 s =
       (mkTask (a_traceID a) (a_listener a) (a_waitStart a + 1) AcceptTop,
        upd_tcp (set_listener None)
          (emit [report; ListenerClose (listener (tcp s))] s)) /\
     forall l, o_listen o4 = inr l -> (0 <= a_waitStart a)%Z ->
       let '(a', s') := accept_run [o1; o2; o3; o4] a0 s in
       a' = mkTask (a_traceID a) (Some l) (a_waitStart a) AcceptWait /\
       listener (tcp s') = Some l /\ panicked s' = panicked s) /\
  (shuttingDown (tcp s) = 0%Z ->
   Temporary e = Some true \/ Temporary e = None ->
     accept_run [o1; o2] a0 s = (at_pc AcceptTop a, emit [report] s) /\
     forall l, listener (tcp s) = Some l ->
       accept_run [o1; o2; o3] a0 s = (at_pc AcceptWait a, emit [report] s)).
Proof.
  intros a0 report. subst a0 report. split; [|split].
  - intros H. cbn. by destruct (Z.eqb_spec (shuttingDown (tcp s)) 0).
  - intros H Hp. cbn. rewrite H. cbn. unfold permanent. rewrite Hp. cbn.
    split; [unfold emit, upd_tcp; cbn; by rewrite <- app_assoc|].
    intros l Hl Hws. rewrite Hl.
    destruct (Z.leb_spec (a_waitStart a + 1) 0) as [|_]; [lia|]. cbn.
    split; [f_equal; lia|done].
  - intros H Hp. cbn. rewrite H. cbn. unfold permanent.
    destruct Hp as [Hp|Hp]; rewrite Hp; cbn; (split; [done|]);
      intros l Hl; by rewrite Hl.
Qed.

(** ** The drop flag and the rate limit *)

Lemma serve_all_snoc (a : AcceptTask) (arrivals : list (Time * Conn))
    (now : Time) (conn : Conn) (s : Sys) :
  serve_all a (arrivals ++ [(now, conn)]) s =
  (serve (arrival now conn) conn a (serve_all a arrivals s)).2.
Proof. unfold serve_all. by rewrite foldl_app. Qed.

Lemma serve_all_dropping (a : AcceptTask) (arrivals : list (Time * Conn)) (s : Sys) :
  dropConns (tcp s) = 1%Z ->
  tcp (serve_all a arrivals s) = tcp s /\
  pipes (serve_all a arrivals s) = pipes s /\
  exists es, trace (serve_all a arrivals s) = trace s ++ es /\
             forall now conn, (now, conn) ∈ arrivals -> ConnClose conn ∈ es.
Proof.
  intros Hd. induction arrivals as [|[now conn] arrivals IH] using rev_ind.
  - split; [done|]. split; [done|]. exists []. split; [by rewrite app_nil_r|].
    intros now conn Hin. by apply elem_of_nil in Hin.
  - destruct IH as (Ht & Hp & es & Htr & Hes).
    rewrite serve_all_snoc, serve_dropping by (by rewrite Ht). cbn.
    split; [done|]. split; [done|].
    eexists. split; [rewrite Htr, <- app_assoc; reflexivity|].
    intros now' conn' Hin. apply elem_of_app in Hin as [Hin|Hin].
    + apply elem_of_app. left. by eapply Hes.
    + apply list_elem_of_singleton in Hin as [= -> ->].
      apply elem_of_app. right. right. left.
Qed.

(** C9: [DropConnections] stores 1 or 0 in the drop flag and touches
    nothing else, so the clients already registered, their pipelines and
    their sockets are as they were.  The routine loads the flag once per
    iteration, right after [Accept] has returned a connection: while it
    reads 1 every accepted connection is closed and none is registered,
    whatever the sequence of arrivals; once it reads 0 again an accepted
    connection goes on to registration. *)
Theorem drop_connections (traceID : string) (a : AcceptTask) (s : Sys) :
  tcp (DropConnections traceID true s) = set_dropConns 1 (tcp s) /\
  tcp (DropConnections traceID false s) = set_dropConns 0 (tcp s) /\
  (forall b,
     clients (tcp (DropConnections traceID b s)) = clients (tcp s) /\
     pipes (DropConnections traceID b s) = pipes s /\
     tasks (DropConnections traceID b s) = tasks s /\
     effects_since s (DropConnections traceID b s) = []) /\
  (forall arrivals,
     let s1 := DropConnections traceID true s in
     let s2 := serve_all a arrivals s1 in
     clients (tcp s2) = clients (tcp s) /\
     pipes s2 = pipes s /\
     forall now conn, (now, conn) ∈ arrivals ->
       ConnClose conn ∈ effects_since s s2) /\
  (forall arrivals o conn,
     let s1 := serve_all a arrivals (DropConnections traceID true s) in
     let s2 := (serve o conn a (DropConnections traceID false s1)).2 in
     RateLimit (cfg (tcp s)) = None ->
     clients (tcp s) !! RemoteAddr conn = None ->
     clients (tcp s2) =
       <[RemoteAddr conn := joined_client (a_traceID a) conn s]> (clients (tcp s))).
Proof.
  split; [done|]. split; [done|]. split.
  { intros []; (repeat (split; [done|]));
      apply effects_since_app; cbn; by rewrite app_nil_r. }
  split.
  - intros arrivals s1 s2. subst s1 s2.
    destruct (serve_all_dropping a arrivals (DropConnections traceID true s))
      as (Ht & Hp & es & Htr & Hes); [done|].
    rewrite Ht, Hp. split; [done|]. split; [done|].
    intros now conn Hin. rewrite (effects_since_app _ _ es) by done.
    by eapply Hes.
  - intros arrivals o conn s1 s2 Hl Hc. subst s1 s2.
    destruct (serve_all_dropping a arrivals (DropConnections traceID true s))
      as (Ht & Hp & es & Htr & Hes); [done|].
    change (DropConnections traceID true s)
      with (upd_tcp (set_dropConns 1) s) in *.
    set (s1 := serve_all a arrivals (upd_tcp (set_dropConns 1) s)) in *.
    rewrite serve_unlimited; cbn; rewrite ?Ht; [|done|done].
    match goal with |- context [join ?t ?c ?x] =>
      destruct (join_absent t c x) as [-> _] end.
    { cbn. by rewrite Ht. }
    cbn. rewrite Ht. cbn. unfold joined_client. cbn. by rewrite Ht, Hp.
Qed.

Lemma serve_first (a : AcceptTask) (s : Sys) (limit : unit -> Duration)
    (now : Time) (conn : Conn) :
  RateLimit (cfg (tcp s)) = Some limit ->
  dropConns (tcp s) <> 1%Z ->
  (lastAcceptedConnection (tcp s) + limit () <= now)%Z ->
  clients (tcp s) !! RemoteAddr conn = None ->
  let s1 := (serve (arrival now conn) conn a s).2 in
  let c := joined_client (a_traceID a) conn s in
  tcp s1 = set_clients (<[RemoteAddr conn := c]> (clients (tcp s)))
             (set_lastAcceptedConnection now (tcp s)) /\
  pipes s1 = pipes s ++ [mkPipe c Reading] /\
  trace s1 = trace s ++
    [Event (a_traceID a +:+ "-" +:+ RemoteAddr conn) "join"
       "Remote IPAddress[ %s ], Local IPAddress[ %v ]"
       [AStr (RemoteAddr conn); AStr (LocalAddr conn)];
     GoRead c].
Proof.
  intros Hl Hd Hn Hc s1 c. subst s1 c.
  rewrite (serve_passed _ _ _ _ limit) by done. cbn [snd arrival o_now].
  match goal with |- context [join ?t ?c ?x] =>
    destruct (join_absent t c x) as (-> & -> & -> & _) end; done.
Qed.

(** C6: with a rate limiter that returns [D], a connection looked at at
    time [now] is closed, unregistered and without a new time stamp,
    exactly when the last accepted time plus [D] is strictly after [now];
    otherwise the time stamp becomes [now] and the connection goes on to
    [join].  So of two connections from different, unregistered addresses,
    the first passing the limiter at [t1]: if the second comes at
    [t2 < t1 + D] only the first is registered and the second is closed,
    and if it comes at [t2 >= t1 + D] both are registered and neither is
    closed. *)
Theorem rate_limit (a : AcceptTask) (s : Sys) (limit : unit -> Duration) :
  RateLimit (cfg (tcp s)) = Some limit ->
  let D := limit () in
  let last := lastAcceptedConnection (tcp s) in
  (forall o conn, (o_now o < last + D)%Z ->
     let '(a', s') := accept_body o (at_pc (AcceptLimit conn) a) s in
     (a' = at_pc AcceptTop a /\ tcp s' = tcp s /\ pipes s' = pipes s /\
      effects_since s s' =
        [Event (a_traceID a) "accept"
           "*******> DROPPING CONNECTION Local[ %v ] Remote[ %v ] DUE TO RATE LIMIT %v"
           [AStr (LocalAddr conn); AStr (RemoteAddr conn); ADur D];
         ConnClose conn])) /\
  (forall o conn, (last + D <= o_now o)%Z ->
     accept_body o (at_pc (AcceptLimit conn) a) s =
       (at_pc (AcceptJoin conn) a,
        upd_tcp (set_lastAcceptedConnection (o_now o)) s)) /\
  (forall t1 t2 c1 c2,
     dropConns (tcp s) <> 1%Z ->
     (last + D <= t1)%Z ->
     RemoteAddr c1 <> RemoteAddr c2 ->
     clients (tcp s) !! RemoteAddr c1 = None ->
     clients (tcp s) !! RemoteAddr c2 = None ->
     let s2 := serve_all a [(t1, c1); (t2, c2)] s in
     ((t2 < t1 + D)%Z ->
        (exists k1, c_conn k1 = c1 /\
           clients (tcp s2) = <[RemoteAddr c1 := k1]> (clients (tcp s))) /\
        clients (tcp s2) !! RemoteAddr c2 = None /\
        size (clients (tcp s2)) = S (size (clients (tcp s))) /\
        ConnClose c2 ∈ effects_since s s2 /\
        (ConnClose c1 ∉ effects_since s s2) /\
        lastAcceptedConnection (tcp s2) = t1) /\
     ((t1 + D <= t2)%Z ->
        (exists k1 k2, c_conn k1 = c1 /\ c_conn k2 = c2 /\
           clients (tcp s2) =
             <[RemoteAddr c2 := k2]> (<[RemoteAddr c1 := k1]> (clients (tcp s)))) /\
        size (clients (tcp s2)) = S (S (size (clients (tcp s)))) /\
        (forall c, ConnClose c ∉ effects_since s s2) /\
        lastAcceptedConnection (tcp s2) = t2)).
Proof.
  intros Hl D last. split; [|split].
  - intros o conn Hn. cbn. rewrite Hl. unfold Time_After, Time_Add.
    rewrite bool_decide_eq_true_2 by done.
    repeat (split; [done|]). by apply effects_since_app.
  - intros o conn Hn. cbn. rewrite Hl. unfold Time_After, Time_Add.
    by rewrite bool_decide_eq_false_2 by (subst D last; lia).
  - intros t1 t2 c1 c2 Hd H1 Hne Hc1 Hc2 s2. subst s2.
    unfold serve_all. cbn [foldl].
    destruct (serve_first a s limit t1 c1) as (Ht & Hp & Htr); [done..|].
    set (s1 := (serve (arrival t1 c1) c1 a s).2) in *.
    set (k1 := joined_client (a_traceID a) c1 s) in *.
    assert (Hl1 : RateLimit (cfg (tcp s1)) = Some limit) by (by rewrite Ht).
    assert (Hd1 : dropConns (tcp s1) <> 1%Z) by (by rewrite Ht).
    assert (Hla : lastAcceptedConnection (tcp s1) = t1) by (by rewrite Ht).
    assert (Hc21 : clients (tcp s1) !! RemoteAddr c2 = None).
    { rewrite Ht. cbn. by rewrite lookup_insert_ne. }
    split.
    + intros Hlt.
      rewrite (serve_limited _ _ _ _ limit) by (rewrite ?Hla; done). cbn.
      rewrite Ht. cbn. split; [by exists k1|]. split; [by rewrite lookup_insert_ne|].
      split; [by apply map_size_insert_None|].
      rewrite (effects_since_app s _
        ([Event (a_traceID a +:+ "-" +:+ RemoteAddr c1) "join"
            "Remote IPAddress[ %s ], Local IPAddress[ %v ]"
            [AStr (RemoteAddr c1); AStr (LocalAddr c1)]; GoRead k1] ++
         [Event (a_traceID a) "accept"
            "*******> DROPPING CONNECTION Local[ %v ] Remote[ %v ] DUE TO RATE LIMIT %v"
            [AStr (LocalAddr c2); AStr (RemoteAddr c2); ADur (limit ())];
          ConnClose c2]))
        by (cbn [trace emit]; rewrite Htr; by rewrite <- app_assoc).
      split; [set_solver|]. split; [|done].
      intros Hin. cbn in Hin. rewrite !elem_of_cons in Hin.
      destruct Hin as [Hin|[Hin|[Hin|[Hin|Hin]]]];
        try discriminate; [|by apply elem_of_nil in Hin].
      injection Hin as ->. done.
    + intros Hge.
      destruct (serve_first a s1 limit t2 c2) as (Ht2 & Hp2 & Htr2);
        [done|done|rewrite Hla; subst D; lia|done|].
      set (k2 := joined_client (a_traceID a) c2 s1) in *.
      set (s2 := (serve (arrival t2 c2) c2 a s1).2) in *.
      rewrite Ht2. cbn. rewrite Ht. cbn.
      split; [by exists k1, k2|].
      split.
      { rewrite !map_size_insert_None; [done|done|by rewrite lookup_insert_ne]. }
      split; [|done].
      intros c. rewrite (effects_since_app s _ (_ ++ _))
        by (rewrite Htr2, Htr; by rewrite <- app_assoc).
      intros Hin. cbn in Hin. rewrite !elem_of_cons in Hin.
      destruct Hin as [Hin|[Hin|[Hin|[Hin|Hin]]]];
        try discriminate. by apply elem_of_nil in Hin.
Qed.

(** ** What every step keeps *)

(** [s'] is [s] with more effects logged, the shutting-down flag still
    set if it was, and every pipeline that had exited still exited. *)
Definition extends (s s' : Sys) : Prop :=
  (exists es, trace s' = trace s ++ es) /\
  (shuttingDown (tcp s) = 1%Z -> shuttingDown (tcp s') = 1%Z) /\
  (forall c, pipe_exited c (pipes s) = true -> pipe_exited c (pipes s') = true).

(** The fields of the manager that are set by [New] and never written. *)
Definition same_config (t t' : TCP) : Prop :=
  cfg t' = cfg t /\ Name t' = Name t /\ recv t' = recv t /\
  send t' = send t /\ userPools t' = userPools t.

Lemma extends_refl (s : Sys) : extends s s.
Proof. split; [exists []; by rewrite app_nil_r|done]. Qed.

Lemma extends_trans (s1 s2 s3 : Sys) :
  extends s1 s2 -> extends s2 s3 -> extends s1 s3.
Proof.
  intros ([es1 H1] & Hf1 & Hp1) ([es2 H2] & Hf2 & Hp2). split; [|split].
  - exists (es1 ++ es2). by rewrite H2, H1, app_assoc.
  - auto.
  - auto.
Qed.

Lemma pipe_exited_app (c : client) (ps extra : list Pipeline) :
  pipe_exited c ps = true -> pipe_exited c (ps ++ extra) = true.
Proof.
  unfold pipe_exited. destruct (ps !! c_task c) as [p|] eqn:H; [|done].
  by rewrite (lookup_app_l_Some _ _ _ _ H).
Qed.

Lemma pipe_exited_insert (c : client) (ps : list Pipeline) (k : nat) (p p' : Pipeline) :
  ps !! k = Some p -> p_state p = Reading ->
  pipe_exited c ps = true -> pipe_exited c (<[k := p']> ps) = true.
Proof.
  intros Hk Hp. unfold pipe_exited.
  destruct (decide (k = c_task c)) as [->|Hne].
  - rewrite Hk, Hp. done.
  - by rewrite list_lookup_insert_ne.
Qed.

Lemma join_extends (traceID : string) (conn : Conn) (s : Sys) :
  extends s (join traceID conn s) /\
  same_config (tcp s) (tcp (join traceID conn s)) /\
  listener (tcp (join traceID conn s)) = listener (tcp s) /\
  wg (tcp (join traceID conn s)) = wg (tcp s) /\
  tasks (join traceID conn s) = tasks s /\
  caller (join traceID conn s) = caller s /\
  hist (join traceID conn s) = hist s /\
  panicked (join traceID conn s) = panicked s.
Proof.
  destruct (clients (tcp s) !! RemoteAddr conn) as [c0|] eqn:H.
  - rewrite (join_present _ _ _ _ H). split; [|done].
    split; [by eexists|done].
  - destruct (join_absent traceID conn s H) as (Ht & Hp & Htr & -> & -> & -> & ->).
    unfold extends, same_config. rewrite Ht, Hp, Htr.
    split; [|done]. split; [by eexists|]. split; [done|].
    intros c. apply pipe_exited_app.
Qed.

Lemma remove_extends (traceID : string) (conn : Conn) (s : Sys) :
  extends s (remove traceID conn s) /\
  same_config (tcp s) (tcp (remove traceID conn s)) /\
  listener (tcp (remove traceID conn s)) = listener (tcp s) /\
  wg (tcp (remove traceID conn s)) = wg (tcp s) /\
  tasks (remove traceID conn s) = tasks s /\
  pipes (remove traceID conn s) = pipes s /\
  caller (remove traceID conn s) = caller s /\
  hist (remove traceID conn s) = hist s /\
  panicked (remove traceID conn s) = panicked s.
Proof.
  destruct (clients (tcp s) !! RemoteAddr conn) as [c0|] eqn:H.
  - rewrite (remove_present _ _ _ _ H). split; [|done].
    split; [by eexists|done].
  - rewrite (remove_absent _ _ _ H). split; [|done].
    split; [by eexists|done].
Qed.

Ltac solve_extends :=
  split; [first [by (exists []; rewrite app_nil_r)
                | by (eexists; cbn; rewrite <- ?app_assoc)]
         | split; [cbn; done | cbn; done]].

Lemma accept_body_frame (o : Oracle) (a a' : AcceptTask) (s s' : Sys) :
  accept_body o a s = (a', s') ->
  extends s s' /\ same_config (tcp s) (tcp s') /\ tasks s' = tasks s /\
  caller s' = caller s /\ hist s' = hist s /\ a_traceID a' = a_traceID a.
Proof.
  unfold accept_body.
  destruct (a_pc a) as [| |e| |e| |conn|conn|conn| | |]; repeat case_match;
    intros [= <- <-]; cbn;
    try (split; [solve_extends|done]).
  destruct (join_extends (a_traceID a) conn s) as (? & ? & ? & ? & ? & ? & ? & ?).
  done.
Qed.

Lemma pipe_body_frame (o : Oracle) (p p' : Pipeline) (s s' : Sys) :
  pipe_body o p s = (p', s') ->
  extends s s' /\ same_config (tcp s) (tcp s') /\
  listener (tcp s') = listener (tcp s) /\ wg (tcp s') = wg (tcp s) /\
  tasks s' = tasks s /\ pipes s' = pipes s /\
  caller s' = caller s /\ hist s' = hist s /\ panicked s' = panicked s.
Proof.
  unfold pipe_body. repeat case_match; intros [= <- <-]; cbn;
    try (split; [solve_extends|done]).
  apply remove_extends.
Qed.

(** *** Counting the accept routines that [t.wg] still waits for *)

(** The routine has made its call of [t.wg.Done()] (line 240): it is about
    to report its last event, or it has returned. *)
Definition released (a : AcceptTask) : Prop :=
  a_pc a = AcceptShutdown \/ a_pc a = AcceptDone.

(** The call of [t.wg.Done()] is still to come. *)
Definition pending (a : AcceptTask) : Prop :=
  a_pc a <> AcceptShutdown /\ a_pc a <> AcceptDone.

(** In the loop, or about to enter it. *)
Definition looping (a : AcceptTask) : Prop :=
  a_pc a <> AcceptBreak /\ a_pc a <> AcceptShutdown /\ a_pc a <> AcceptDone.

#[global] Instance neterror_eq_dec : EqDecision neterror.
Proof. solve_decision. Defined.

#[global] Instance accept_pc_eq_dec : EqDecision accept_pc.
Proof. solve_decision. Defined.

#[global] Instance pending_dec (a : AcceptTask) : Decision (pending a).
Proof. unfold pending. apply _. Defined.

#[global] Instance released_dec (a : AcceptTask) : Decision (released a).
Proof. unfold released. apply _. Defined.

#[global] Instance looping_dec (a : AcceptTask) : Decision (looping a).
Proof. unfold looping. apply _. Defined.

Definition pending_count (l : list AcceptTask) : nat := length (filter pending l).

Lemma pending_count_app (l1 l2 : list AcceptTask) :
  pending_count (l1 ++ l2) = (pending_count l1 + pending_count l2)%nat.
Proof. unfold pending_count. by rewrite filter_app, length_app. Qed.

Lemma insert_split {A} (l : list A) (i : nat) (x y : A) :
  l !! i = Some x ->
  l = take i l ++ x :: drop (S i) l /\
  <[i := y]> l = take i l ++ y :: drop (S i) l.
Proof.
  intros H. split.
  - by rewrite take_drop_middle.
  - apply insert_take_drop. by eapply lookup_lt_Some.
Qed.

Lemma pending_count_insert_same (l : list AcceptTask) (i : nat) (a a' : AcceptTask) :
  l !! i = Some a -> (pending a <-> pending a') ->
  pending_count (<[i := a']> l) = pending_count l.
Proof.
  intros H Hl. destruct (insert_split l i a a' H) as [H1 H2].
  rewrite H2. rewrite H1 at 3. rewrite !pending_count_app. f_equal.
  unfold pending_count. destruct (decide (pending a)) as [Ha|Ha].
  - rewrite !filter_cons_True; [done|done|by apply Hl].
  - rewrite !filter_cons_False; [done|done|]. intros Ha'. by apply Ha, Hl.
Qed.

Lemma pending_count_insert_done (l : list AcceptTask) (i : nat) (a a' : AcceptTask) :
  l !! i = Some a -> pending a -> ~ pending a' ->
  pending_count l = S (pending_count (<[i := a']> l)).
Proof.
  intros H Ha Ha'. destruct (insert_split l i a a' H) as [H1 H2].
  rewrite H2. rewrite H1 at 1. rewrite !pending_count_app.
  unfold pending_count. rewrite filter_cons_True, filter_cons_False by done.
  cbn. lia.
Qed.

Lemma not_pending (a : AcceptTask) : ~ pending a <-> released a.
Proof.
  unfold pending, released. split.
  - intros H. destruct (decide (a_pc a = AcceptShutdown)); [by left|].
    destruct (decide (a_pc a = AcceptDone)); [by right|]. by destruct H.
  - intros [H|H] [H1 H2]; done.
Qed.

Lemma pending_count_zero (l : list AcceptTask) :
  pending_count l = 0%nat -> Forall released l.
Proof.
  unfold pending_count. induction l as [|a l IH]; [done|].
  destruct (decide (pending a)) as [Ha|Ha].
  - rewrite filter_cons_True by done. done.
  - rewrite filter_cons_False by done. intros H. constructor; [|by apply IH].
    by apply not_pending.
Qed.

Lemma Exists_insert_same {A} (P : A -> Prop) (l : list A) (i : nat) (x y : A) :
  l !! i = Some x -> (P x -> P y) -> Exists P l -> Exists P (<[i := y]> l).
Proof.
  intros H Hxy Hex. apply Exists_exists in Hex as (z & Hz & HPz).
  apply list_elem_of_lookup in Hz as [j Hj]. apply Exists_exists.
  destruct (decide (i = j)) as [->|Hne].
  - exists y. split.
    + apply list_elem_of_lookup. exists j. apply list_lookup_insert_eq.
      by eapply lookup_lt_Some.
    + apply Hxy. congruence.
  - exists z. split; [|done]. apply list_elem_of_lookup. exists j.
    by rewrite list_lookup_insert_ne.
Qed.

Lemma Exists_insert_new {A} (P : A -> Prop) (l : list A) (i : nat) (x y : A) :
  l !! i = Some x -> P y -> Exists P (<[i := y]> l).
Proof.
  intros H Hy. apply Exists_exists. exists y. split; [|done].
  apply list_elem_of_lookup. exists i. apply list_lookup_insert_eq.
  by eapply lookup_lt_Some.
Qed.

(** ** The invariant of the system *)

(** The [waitStart] group of a routine is never negative, it is zero only
    once the routine has bound a listener, and the listener the routine
    holds came from [net.ListenTCP]. *)
Definition task_ok (s : Sys) (a : AcceptTask) : Prop :=
  (0 <= a_waitStart a)%Z /\
  (a_waitStart a = 0%Z -> is_Some (a_listener a)) /\
  (forall l, a_listener a = Some l -> ListenTCP l ∈ trace s).

(** What an action recorded in [hist] has left behind. *)
Definition action_done (s : Sys) (act : action) : Prop :=
  match act with
  | SetShuttingDown => shuttingDown (tcp s) = 1%Z
  | CloseListener l => ListenerClose l ∈ trace s
  | ShutdownPool p => exists traceID, PoolShutdown p traceID ∈ trace s
  | Snapshot m => True
  | DropClose c => ConnClose (c_conn c) ∈ trace s
  | DropWaited c => pipe_exited c (pipes s) = true
  | AcceptWaited => True
  end.

Definition pool_actions (t : TCP) : list action :=
  if userPools t then [] else [ShutdownPool (recv t); ShutdownPool (send t)].

Definition drops (cs : list client) : list action :=
  flat_map (fun c => [DropClose c; DropWaited c]) cs.

(** The actions of [Stop] up to and including the snapshot. *)
Definition stop_prefix (t : TCP) (l : option Listener) (m : gmap string client) : list action :=
  [SetShuttingDown; CloseListener l] ++ pool_actions t ++ [Snapshot m].

(** Where the caller stands in [Stop] determines what it has done. *)
Definition hist_ok (t : TCP) (s : Sys) : Prop :=
  match caller s with
  | StopMark _ => hist s = []
  | StopClose _ => hist s = [SetShuttingDown]
  | StopPools _ => exists l, hist s = [SetShuttingDown; CloseListener l]
  | StopSnapshot _ =>
    exists l, hist s = [SetShuttingDown; CloseListener l] ++ pool_actions t
  | StopDrop _ rest =>
    exists l m cs, hist s = stop_prefix t l m ++ drops cs /\
                   (map_to_list m).*2 ≡ₚ cs ++ (map_to_list rest).*2
  | StopDropWait _ c rest =>
    exists l m cs, hist s = stop_prefix t l m ++ drops cs ++ [DropClose c] /\
                   (map_to_list m).*2 ≡ₚ (cs ++ [c]) ++ (map_to_list rest).*2
  | StopWait _ =>
    exists l m cs, hist s = stop_prefix t l m ++ drops cs /\
                   (map_to_list m).*2 ≡ₚ cs
  | _ => True
  end.

(** The caller of [Start] waits on the group of a routine that exists. *)
Definition wait_ok (s : Sys) : Prop :=
  match caller s with
  | StartWait traceID i =>
    exists a, tasks s !! i = Some a /\ a_traceID a = traceID
  | _ => True
  end.

Record Inv (t : TCP) (s : Sys) : Prop := mkInv {
  inv_config : same_config t (tcp s);
  inv_wg : wg (tcp s) = Z.of_nat (pending_count (tasks s));
  inv_listener : is_Some (listener (tcp s)) -> Exists looping (tasks s);
  inv_tasks : Forall (task_ok s) (tasks s);
  inv_wait : wait_ok s;
  inv_hist : hist_ok t s;
  inv_done : Forall (action_done s) (hist s)
}.

Lemma task_ok_extends (s s' : Sys) (a : AcceptTask) :
  extends s s' -> task_ok s a -> task_ok s' a.
Proof.
  intros ([es Hes] & _ & _) (H1 & H2 & H3). split; [done|]. split; [done|].
  intros l Hl. rewrite Hes. apply elem_of_app. left. by apply H3.
Qed.

Lemma action_done_extends (s s' : Sys) (act : action) :
  extends s s' -> action_done s act -> action_done s' act.
Proof.
  intros ([es Hes] & Hf & Hp). destruct act; cbn; rewrite ?Hes; auto.
  - intros H. apply elem_of_app. by left.
  - intros [tid H]. exists tid. apply elem_of_app. by left.
  - intros H. apply elem_of_app. by left.
Qed.

Lemma same_config_trans (t1 t2 t3 : TCP) :
  same_config t1 t2 -> same_config t2 t3 -> same_config t1 t3.
Proof.
  unfold same_config. intros (? & ? & ? & ? & ?) (? & ? & ? & ? & ?).
  repeat split; congruence.
Qed.

Lemma same_config_refl (t : TCP) : same_config t t.
Proof. done. Qed.

(** A step that leaves the listener, the group and the routines alone. *)
Lemma Inv_frame_hist (t : TCP) (s s' : Sys) :
  Inv t s -> extends s s' -> same_config (tcp s) (tcp s') ->
  listener (tcp s') = listener (tcp s) -> wg (tcp s') = wg (tcp s) ->
  tasks s' = tasks s ->
  wait_ok s' -> hist_ok t s' -> Forall (action_done s') (hist s') ->
  Inv t s'.
Proof.
  intros [Hc Hw Hl Ht Hwt Hh Hd] Hex Hcfg Hl' Hw' Ht' Hwt' Hh' Hd'. split.
  - by eapply same_config_trans.
  - by rewrite Hw', Ht'.
  - by rewrite Hl', Ht'.
  - rewrite Ht'. eapply Forall_impl; [done|]. intros a. by apply task_ok_extends.
  - done.
  - done.
  - done.
Qed.

Lemma Inv_frame (t : TCP) (s s' : Sys) :
  Inv t s -> extends s s' -> same_config (tcp s) (tcp s') ->
  listener (tcp s') = listener (tcp s) -> wg (tcp s') = wg (tcp s) ->
  tasks s' = tasks s ->
  (hist s' = hist s /\ caller s' = caller s \/
   hist s' = hist s /\ caller s' = Idle \/
   hist s' = hist s /\ (exists traceID, caller s' = StartSpawn traceID) \/
   hist s' = [] /\ (exists traceID, caller s' = StopMark traceID)) ->
  Inv t s'.
Proof.
  intros [Hc Hw Hl Ht Hwt Hh Hd] Hex Hcfg Hl' Hw' Ht' Hcase. split.
  - by eapply same_config_trans.
  - by rewrite Hw', Ht'.
  - by rewrite Hl', Ht'.
  - rewrite Ht'. eapply Forall_impl; [done|]. intros a. by apply task_ok_extends.
  - unfold wait_ok in *. rewrite Ht'.
    destruct Hcase as [[_ ->]|[[_ ->]|[[_ [? ->]]|[_ [? ->]]]]]; done.
  - unfold hist_ok in *.
    destruct Hcase as [[-> ->]|[[_ ->]|[[_ [? ->]]|[-> [? ->]]]]]; done.
  - destruct Hcase as [[-> _]|[[-> _]|[[-> _]|[-> _]]]];
      try (eapply Forall_impl; [done|]; intros a; by apply action_done_extends).
Qed.

Lemma Inv_init (t : TCP) : constructed t -> Inv t (init t).
Proof.
  intros (Hl & Hc & Hw & _). split; cbn; try done.
  - rewrite Hl. by intros [? ?].
Qed.

Ltac same_wg := left; split; [intuition congruence|cbn; done].

Lemma accept_body_summary (o : Oracle) (a a' : AcceptTask) (s s' : Sys) :
  accept_body o a s = (a', s') -> accept_enabled a = true -> task_ok s a ->
  task_ok s' a' /\
  ((pending a <-> pending a') /\ wg (tcp s') = wg (tcp s) \/
   pending a /\ ~ pending a' /\ wg (tcp s) = (wg (tcp s') + 1)%Z) /\
  (looping a' \/ listener (tcp s') = None \/
   listener (tcp s') = listener (tcp s) /\ ~ looping a).
Proof.
  intros Hb Hen Hok.
  assert (Hex : extends s s') by (by apply accept_body_frame in Hb as [? _]).
  pose proof (task_ok_extends _ _ _ Hex Hok) as (Hw0 & Hw1 & Hw2).
  clear Hex Hok.
  revert Hb Hen. unfold accept_body, accept_enabled, pending, looping, task_ok.
  destruct (a_pc a) as [| |e| |e| |conn|conn|conn| | |] eqn:Hpc;
    repeat case_match; intros [= <- <-] Hen;
    cbn [a_pc a_listener a_waitStart at_pc] in *; try rewrite Hpc;
    try discriminate.
  all: try (split; [done|]; split; [same_wg|by left]).
  all: try apply Z.leb_le in H1; try apply Z.leb_gt in H1.
  - split; [|split; [same_wg|by left]].
    split; [done|]. split; [by eexists|]. intros l0 [= <-]. cbn. set_solver.
  - split; [|split; [same_wg|by left]].
    split; [lia|]. split; [by eexists|]. intros l0 [= <-]. cbn. set_solver.
  - split; [done|]. split; [same_wg|]. right. by left.
  - split; [|split; [same_wg|by left]].
    split; [lia|]. split; [lia|done].
  - destruct (join_extends (a_traceID a) conn s) as (_ & _ & Hl & Hw & _).
    split; [done|]. split; [|by left]. left. split; [intuition congruence|done].
  - split; [done|]. split; [same_wg|]. right. right. split; [done|].
    intros [? ?]. done.
  - split; [done|]. split.
    + right. split; [done|]. split; [intros [? ?]; done|]. cbn. lia.
    + right. right. split; [done|]. intros [? ?]. done.
  - split; [done|]. split; [same_wg|].
    right. right. split; [done|]. intros (? & ? & ?). done.
Qed.

Lemma Inv_accept (t : TCP) (o : Oracle) (i : nat) (s s' : Sys) :
  Inv t s -> accept_step o i s = Some s' -> Inv t s'.
Proof.
  intros [Hc Hw Hl Ht Hwt Hh Hd]. unfold accept_step.
  destruct (tasks s !! i) as [a|] eqn:Hi; [|done].
  destruct (accept_enabled a) eqn:Hen; [|done].
  destruct (accept_body o a s) as [a' s1] eqn:Hb. intros [= <-].
  destruct (accept_body_frame _ _ _ _ _ Hb) as (Hex & Hcfg & Hts & Hca & Hhi & Htid).
  assert (Hoka : task_ok s a) by (by eapply Forall_lookup_1 in Ht).
  destruct (accept_body_summary _ _ _ _ _ Hb Hen Hoka) as (Hoka' & Hwg & Hlsn).
  split; cbn.
  - by eapply same_config_trans.
  - rewrite Hts. destruct Hwg as [[Hsame Hwg]|(Hpa & Hdead & Hwg)].
    + rewrite Hwg, Hw. f_equal. symmetry.
      by eapply pending_count_insert_same.
    + rewrite (pending_count_insert_done _ i a a') in Hw by done.
      unfold pending_count in *. lia.
  - rewrite Hts. intros Hsome. destruct Hlsn as [Hlo|[Hnone|[Hsame Hnl]]].
    + by eapply Exists_insert_new.
    + rewrite Hnone in Hsome. by destruct Hsome.
    + eapply Exists_insert_same; [done|done|]. apply Hl. by rewrite <- Hsame.
  - rewrite Hts. apply Forall_insert; [|done].
    eapply Forall_impl; [done|]. intros b. by apply task_ok_extends.
  - unfold wait_ok in *. cbn. rewrite Hca.
    destruct (caller s) as [|?|tid j| | | | | | |]; try done.
    destruct Hwt as (b & Hj & Hb'). rewrite Hts.
    destruct (decide (i = j)) as [->|Hne].
    + exists a'. split; [apply list_lookup_insert_eq; by eapply lookup_lt_Some|].
      congruence.
    + exists b. by rewrite list_lookup_insert_ne.
  - unfold hist_ok in *. cbn. by rewrite Hca, Hhi.
  - rewrite Hhi. eapply Forall_impl; [done|]. intros act.
    by apply action_done_extends.
Qed.

Lemma Inv_pipe (t : TCP) (o : Oracle) (k : nat) (s s' : Sys) :
  Inv t s -> pipe_step o k s = Some s' -> Inv t s'.
Proof.
  intros HI. unfold pipe_step.
  destruct (pipes s !! k) as [p|] eqn:Hk; [|done].
  destruct (p_state p) eqn:Hp; [|done].
  destruct (pipe_body o p s) as [p' s1] eqn:Hb. intros [= <-].
  destruct (pipe_body_frame _ _ _ _ _ Hb)
    as (Hex & Hcfg & Hl & Hw & Hts & Hps & Hca & Hhi & Hpa).
  eapply Inv_frame; [done| |done..|left; done].
  destruct Hex as (Htr & Hf & Hpe). split; [done|]. split; [done|].
  intros c Hc. cbn. rewrite Hps. by eapply pipe_exited_insert.
Qed.

Lemma drops_snoc (cs : list client) (c : client) :
  drops (cs ++ [c]) = drops cs ++ [DropClose c; DropWaited c].
Proof. unfold drops. rewrite flat_map_app. cbn. done. Qed.

Lemma Forall_done_snoc (s s' : Sys) (h extra : list action) :
  extends s s' -> Forall (action_done s) h -> Forall (action_done s') extra ->
  Forall (action_done s') (h ++ extra).
Proof.
  intros Hex Hh Hextra. apply Forall_app. split; [|done].
  eapply Forall_impl; [done|]. intros act. by apply action_done_extends.
Qed.

Lemma Inv_caller (t : TCP) (o : Oracle) (s s' : Sys) :
  Inv t s -> caller_step o s = Some s' -> Inv t s'.
Proof.
  intros HI. pose proof HI as [Hc Hw Hl Ht Hwt Hh Hd].
  destruct Hc as (Hcfg & Hname & Hrecv & Hsend & Hup).
  unfold caller_step. unfold hist_ok in Hh.
  destruct (caller s) as [|tid|tid i|tid|tid|tid|tid|tid rest|tid c rest|tid] eqn:Hca.
  - done.
  - (* StartSpawn *)
    intros [= <-]. split; cbn -[pending_count].
    + done.
    + rewrite pending_count_app, Hw.
      assert (pending_count [mkTask tid None 1 AcceptTop] = 1%nat) as ->
        by (unfold pending_count; by rewrite filter_cons_True).
      lia.
    + intros _. apply Exists_app. right. constructor. done.
    + apply Forall_app. split.
      * eapply Forall_impl; [done|]. intros a. apply task_ok_extends.
        solve_extends.
      * constructor; [|done]. split; [done|]. cbn. split; [lia|done].
    + unfold wait_ok. cbn. exists (mkTask tid None 1 AcceptTop).
      split; [|done]. by rewrite list_lookup_middle.
    + done.
    + eapply Forall_impl; [done|]. intros a. apply action_done_extends.
      solve_extends.
  - (* StartWait *)
    destruct (tasks s !! i) as [a|]; [|done].
    destruct (a_waitStart a =? 0)%Z; [|done]. intros [= <-].
    eapply Inv_frame; [done|solve_extends|done..|right; left; done].
  - (* StopMark *)
    intros [= <-]. eapply Inv_frame_hist; [done|solve_extends|done..| |].
    + unfold hist_ok. cbn. by rewrite Hh.
    + cbn. eapply Forall_done_snoc; [|done|by constructor]. solve_extends.
  - (* StopClose *)
    intros [= <-]. eapply Inv_frame_hist; [done|solve_extends|done..| |].
    + unfold hist_ok. cbn. rewrite Hh. by eexists.
    + cbn. eapply Forall_done_snoc; [|done|]; [solve_extends|].
      constructor; [|done]. cbn. set_solver.
  - (* StopPools *)
    destruct Hh as [l Hh]. unfold pool_actions in *.
    destruct (userPools (tcp s)) eqn:Hu; intros [= <-].
    + eapply Inv_frame_hist; [done|solve_extends|done..| |done].
      unfold hist_ok, pool_actions. cbn. rewrite <- Hup, Hh. by exists l.
    + eapply Inv_frame_hist; [done|solve_extends|done..| |].
      * unfold hist_ok, pool_actions. cbn. rewrite <- Hup, Hh, Hrecv, Hsend.
        by exists l.
      * cbn. eapply Forall_done_snoc; [|done|]; [solve_extends|].
        constructor; [|constructor; [|done]]; cbn; exists tid; set_solver.
  - (* StopSnapshot *)
    destruct Hh as [l Hh]. intros [= <-].
    eapply Inv_frame_hist; [done|solve_extends|done..| |].
    + unfold hist_ok, stop_prefix. cbn. exists l, (clients (tcp s)), [].
      rewrite Hh. cbn. by rewrite <- !app_assoc, app_nil_r.
    + cbn. eapply Forall_done_snoc; [|done|by constructor]. solve_extends.
  - (* StopDrop *)
    destruct Hh as (l & m & cs & Hh & Hperm).
    destruct (decide (rest = ∅)) as [->|Hne].
    + intros [= <-]. eapply Inv_frame_hist; [done|solve_extends|done..| |done].
      unfold hist_ok. cbn. exists l, m, cs. split; [done|].
      by rewrite map_to_list_empty, app_nil_r in Hperm.
    + destruct (rest !! o_pick o) as [c|] eqn:Hpick; [|done]. intros [= <-].
      eapply Inv_frame_hist; [done|solve_extends|done..| |].
      * unfold hist_ok. cbn. exists l, m, cs. rewrite Hh.
        split; [unfold stop_prefix; cbn; by rewrite <- !app_assoc|].
        rewrite Hperm, <- (map_to_list_delete rest _ _ Hpick). cbn.
        by rewrite <- app_assoc.
      * cbn. eapply Forall_done_snoc; [|done|]; [solve_extends|].
        constructor; [|done]. cbn. set_solver.
  - (* StopDropWait *)
    destruct Hh as (l & m & cs & Hh & Hperm).
    destruct (pipe_exited c (pipes s)) eqn:Hpe; [|done]. intros [= <-].
    eapply Inv_frame_hist; [done|solve_extends|done..| |].
    + unfold hist_ok. cbn. exists l, m, (cs ++ [c]). rewrite Hh, drops_snoc.
      split; [|done]. unfold stop_prefix; cbn; by rewrite <- !app_assoc.
    + cbn. eapply Forall_done_snoc; [|done|]; [solve_extends|].
      constructor; [|done]. done.
  - (* StopWait *)
    destruct (wg (tcp s) =? 0)%Z; [|done]. intros [= <-].
    eapply Inv_frame_hist; [done|solve_extends|done..|].
    cbn. eapply Forall_done_snoc; [|done|by constructor]. solve_extends.
Qed.

Lemma Inv_step (t : TCP) (o : Oracle) (l : label) (s s' : Sys) :
  Inv t s -> step o l s = Some s' -> Inv t s'.
Proof.
  intros HI. unfold step. destruct (panicked s); [done|].
  destruct l as [tid|tid| |i|k|tid r|tid b].
  - destruct (is_idle (caller s)); [|done]. intros [= <-].
    unfold Start_check. destruct (listener (tcp s)).
    + eapply Inv_frame; [done|solve_extends|done..|left; done].
    + eapply Inv_frame; [done|solve_extends|done..|].
      right. right. left. split; [done|]. by eexists.
  - destruct (is_idle (caller s)); [|done]. intros [= <-].
    unfold Stop_check. destruct (listener (tcp s)).
    + eapply Inv_frame; [done|solve_extends|done..|].
      right. right. right. split; [done|]. by eexists.
    + eapply Inv_frame; [done|solve_extends|done..|left; done].
  - by apply Inv_caller.
  - by apply Inv_accept.
  - by apply Inv_pipe.
  - unfold Do. destruct (clients (tcp s) !! r_TCPAddr r); intros [= <-];
      (eapply Inv_frame; [done|solve_extends|done..|left; done]).
  - intros [= <-]. destruct b;
      (eapply Inv_frame; [done|solve_extends|done..|left; done]).
Qed.

Lemma Inv_run (t : TCP) (ls : list (Oracle * label)) (s s' : Sys) :
  Inv t s -> run ls s = Some s' -> Inv t s'.
Proof.
  revert s. induction ls as [|[o l] ls IH]; intros s HI; cbn.
  - by intros [= <-].
  - destruct (step o l s) as [s1|] eqn:Hs; [|done].
    apply IH. by eapply Inv_step.
Qed.

Lemma Inv_reachable (t : TCP) (s : Sys) :
  constructed t -> reachable t s -> Inv t s.
Proof.
  intros Hc [ls Hr]. eapply Inv_run; [|done]. by apply Inv_init.
Qed.

Lemma run_app (ls1 ls2 : list (Oracle * label)) (s : Sys) :
  run (ls1 ++ ls2) s =
  match run ls1 s with
  | Some s1 => run ls2 s1
  | None => None
  end.
Proof.
  revert s. induction ls1 as [|[o l] ls1 IH]; intros s; cbn; [done|].
  destruct (step o l s); [apply IH|done].
Qed.

Lemma reachable_step (t : TCP) (o : Oracle) (l : label) (s s' : Sys) :
  reachable t s -> step o l s = Some s' -> reachable t s'.
Proof.
  intros [ls Hr] Hs. exists (ls ++ [(o, l)]). rewrite run_app, Hr. cbn.
  by rewrite Hs.
Qed.

(** ** New and the ownership of the pools *)

Lemma New_inr (Validate : Config -> option error)
    (ResolveTCPAddr : string -> string -> error + TCPAddr)
    (pool_New : string -> string -> PoolConfig -> error + Pool)
    (traceID name : string) (c : Config) (t : TCP) :
  New Validate ResolveTCPAddr pool_New traceID name c = inr t ->
  constructed t /\ cfg t = c /\ Name t = name /\
  userPools t = match RecvPool c with Some _ => true | None => false end /\
  (forall p, RecvPool c = Some p -> recv t = p) /\
  (forall p, SendPool c = Some p -> send t = p).
Proof.
  unfold New. repeat case_match; intros [= <-]; cbn; simplify_eq;
    repeat split; try done; intros ? [= <-]; done.
Qed.

(** C10: whether [Stop] shuts the pools down is decided by the receive
    pool of the configuration alone.  For every configuration that [New]
    accepts, whatever [Validate] lets through, the step of [Stop] that
    handles the pools shuts down the receive pool and then the send pool
    when the configuration had no receive pool, and shuts down nothing
    when it had one; a send pool that the caller supplied is the send pool
    of the manager, so with no receive pool supplied it is shut down as
    well. *)
Theorem pools_owned_iff_no_recv_pool
    (Validate : Config -> option error)
    (ResolveTCPAddr : string -> string -> error + TCPAddr)
    (pool_New : string -> string -> PoolConfig -> error + Pool)
    (traceID name : string) (c : Config) (t : TCP)
    (s : Sys) (o : Oracle) (stopID : string) :
  New Validate ResolveTCPAddr pool_New traceID name c = inr t ->
  reachable t s -> caller s = StopPools stopID ->
  exists s',
    caller_step o s = Some s' /\
    caller s' = StopSnapshot stopID /\
    effects_since s s' =
      match RecvPool c with
      | None => [PoolShutdown (recv t) stopID; PoolShutdown (send t) stopID]
      | Some _ => []
      end /\
    (forall p, SendPool c = Some p -> send t = p) /\
    (forall p, RecvPool c = Some p -> recv t = p).
Proof.
  intros HN Hr Hca.
  destruct (New_inr _ _ _ _ _ _ _ HN) as (Hcon & _ & _ & Hup & Hrp & Hsp).
  destruct (Inv_reachable t s Hcon Hr) as [(_ & _ & Hrecv & Hsend & Hu) _ _ _ _ _ _].
  unfold caller_step. rewrite Hca, Hu, Hup, Hrecv, Hsend.
  destruct (RecvPool c); eexists; (split; [reflexivity|]); cbn;
    (split; [done|]); (split; [|done]).
  - apply effects_since_app. cbn. by rewrite app_nil_r.
  - by apply effects_since_app.
Qed.

(** ** Stop *)

Lemma drops_waited (cs : list client) (c : client) :
  c ∈ cs -> DropWaited c ∈ drops cs.
Proof.
  intros Hc. unfold drops. apply list_elem_of_In, in_flat_map.
  exists c. split; [by apply list_elem_of_In|]. right. by left.
Qed.

(** What holds when [t.wg.Wait()] of [Stop] returns. *)
Lemma Stop_returns (t : TCP) (traceID : string) (s s' : Sys) (o : Oracle) :
  constructed t -> reachable t s ->
  caller s = StopWait traceID -> caller_step o s = Some s' ->
  s' = set_caller Idle (did [AcceptWaited] (emit [Return "Stop" None] s)) /\
  Forall released (tasks s') /\
  listener (tcp s') = None /\
  exists l m cs,
    hist s' = stop_prefix t l m ++ drops cs ++ [AcceptWaited] /\
    cs ≡ₚ (map_to_list m).*2 /\
    Forall (action_done s') (hist s') /\
    forall c, c ∈ cs -> pipe_exited c (pipes s') = true.
Proof.
  intros Hcon Hr Hca Hstep.
  pose proof (Inv_reachable t s Hcon Hr) as HI.
  assert (HI' : Inv t s') by (by eapply Inv_caller).
  destruct HI as [_ Hw Hl _ _ Hh Hd].
  revert Hstep. unfold caller_step. rewrite Hca.
  destruct (Z.eqb_spec (wg (tcp s)) 0) as [Hz|]; [|done]. intros [= <-].
  split; [done|].
  assert (Hdone : Forall released (tasks s)).
  { apply pending_count_zero. lia. }
  split; [done|]. split.
  { cbn. destruct (listener (tcp s)) as [l|] eqn:Hls; [|done].
    exfalso. assert (Hex : Exists looping (tasks s)) by (apply Hl; by eexists).
    apply Exists_exists in Hex as (b & Hb & (_ & Hn1 & Hn2)).
    rewrite Forall_forall in Hdone. by destruct (Hdone b Hb). }
  unfold hist_ok in Hh. rewrite Hca in Hh. destruct Hh as (l & m & cs & Hh & Hperm).
  exists l, m, cs. cbn. rewrite Hh.
  split; [by rewrite <- app_assoc|]. split; [done|].
  split.
  { destruct HI' as [_ _ _ _ _ _ Hd']. cbn in Hd'. by rewrite Hh in Hd'. }
  intros c Hc. rewrite Forall_forall in Hd.
  apply (Hd (DropWaited c)). rewrite Hh. apply elem_of_app. right.
  by apply drops_waited.
Qed.

(** *** The effects of a call of Stop *)

(** What one action of [Stop] writes to the log. *)
Definition action_effects (traceID : string) (act : action) : list effect :=
  match act with
  | CloseListener l => [ListenerClose l]
  | ShutdownPool p => [PoolShutdown p traceID]
  | DropClose c => [ConnClose (c_conn c)]
  | AcceptWaited => [Return "Stop" None]
  | SetShuttingDown | Snapshot _ | DropWaited _ => []
  end.

(** The effects of the caller's own steps along a run, those of the other
    routines left out. *)
Fixpoint caller_effects (ls : list (Oracle * label)) (s : Sys) : list effect :=
  match ls with
  | [] => []
  | (o, l) :: ls' =>
    match step o l s with
    | Some s' =>
      match l with
      | LCaller => effects_since s s' ++ caller_effects ls' s'
      | _ => caller_effects ls' s'
      end
    | None => []
    end
  end.

Definition is_call (l : label) : bool :=
  match l with
  | LStart _ | LStop _ => true
  | _ => false
  end.

(** A run in which neither [Start] nor [Stop] is called. *)
Definition no_calls (ls : list (Oracle * label)) : Prop :=
  Forall (fun ol => is_call ol.2 = false) ls.

(** The caller is inside the call [Stop(traceID)], or has returned. *)
Definition inside_Stop (traceID : string) (c : caller_pc) : Prop :=
  match c with
  | Idle => True
  | StopMark tid | StopClose tid | StopPools tid | StopSnapshot tid
  | StopDrop tid _ | StopDropWait tid _ _ | StopWait tid => tid = traceID
  | StartSpawn _ | StartWait _ _ => False
  end.

Lemma caller_step_effects (traceID : string) (o : Oracle) (s s' : Sys) :
  inside_Stop traceID (caller s) -> caller_step o s = Some s' ->
  inside_Stop traceID (caller s') /\
  exists acts, hist s' = hist s ++ acts /\
               effects_since s s' = flat_map (action_effects traceID) acts.
Proof.
  intros Hin. unfold caller_step.
  destruct (caller s) as [|tid|tid i|tid|tid|tid|tid|tid rest|tid c rest|tid];
    cbn in Hin; try done; subst tid.
  - intros [= <-]. split; [done|]. exists [SetShuttingDown]. split; [done|].
    apply effects_since_app. cbn. by rewrite app_nil_r.
  - intros [= <-]. split; [done|]. exists [CloseListener (listener (tcp s))].
    split; [done|]. by apply effects_since_app.
  - destruct (userPools (tcp s)); intros [= <-]; (split; [done|]).
    + exists []. split; [cbn; by rewrite app_nil_r|].
      apply effects_since_app. cbn. by rewrite app_nil_r.
    + exists [ShutdownPool (recv (tcp s)); ShutdownPool (send (tcp s))].
      split; [done|]. by apply effects_since_app.
  - intros [= <-]. split; [done|]. exists [Snapshot (clients (tcp s))].
    split; [done|]. apply effects_since_app. cbn. by rewrite app_nil_r.
  - destruct (decide (rest = ∅)) as [->|Hne].
    + intros [= <-]. split; [done|]. exists [].
      split; [cbn; by rewrite app_nil_r|].
      apply effects_since_app. cbn. by rewrite app_nil_r.
    + destruct (rest !! o_pick o) as [c|]; [|done]. intros [= <-].
      split; [done|]. exists [DropClose c]. split; [done|].
      by apply effects_since_app.
  - destruct (pipe_exited c (pipes s)); [|done]. intros [= <-].
    split; [done|]. exists [DropWaited c]. split; [done|].
    apply effects_since_app. cbn. by rewrite app_nil_r.
  - destruct (wg (tcp s) =? 0)%Z; [|done]. intros [= <-].
    split; [done|]. exists [AcceptWaited]. split; [done|].
    by apply effects_since_app.
Qed.

(** While the caller is inside [Stop], what [hist] gains is what the
    caller's own steps have written to the log. *)
Lemma caller_effects_hist (traceID : string) (ls : list (Oracle * label)) (s s' : Sys) :
  no_calls ls -> inside_Stop traceID (caller s) -> run ls s = Some s' ->
  flat_map (action_effects traceID) (hist s') =
    flat_map (action_effects traceID) (hist s) ++ caller_effects ls s.
Proof.
  revert s. induction ls as [|[o l] ls IH]; intros s Hnc Hin; cbn.
  - intros [= <-]. by rewrite app_nil_r.
  - apply Forall_cons in Hnc as [Hl Hnc]. cbn in Hl.
    destruct (step o l s) as [s1|] eqn:Hs; [|done]. intros Hr.
    assert (Hsame : l <> LCaller -> hist s1 = hist s /\ caller s1 = caller s).
    { intros Hne. revert Hs. unfold step. destruct (panicked s); [done|].
      destruct l as [tid|tid| |i|k|tid r|tid b]; try done.
      - unfold accept_step. destruct (tasks s !! i) as [a|]; [|done].
        destruct (accept_enabled a); [|done].
        destruct (accept_body o a s) as [a' s2] eqn:Hb. intros [= <-].
        by apply accept_body_frame in Hb as (_ & _ & _ & Hca & Hhi & _).
      - unfold pipe_step. destruct (pipes s !! k) as [p|]; [|done].
        destruct (p_state p); [|done].
        destruct (pipe_body o p s) as [p' s2] eqn:Hb. intros [= <-].
        by apply pipe_body_frame in Hb as (_ & _ & _ & _ & _ & _ & Hca & Hhi & _).
      - unfold Do. by destruct (clients (tcp s) !! r_TCPAddr r); intros [= <-].
      - intros [= <-]. by destruct b. }
    destruct l as [tid|tid| |i|k|tid r|tid b]; try discriminate Hl.
    { unfold step in Hs. destruct (panicked s); [done|].
      destruct (caller_step_effects traceID o s s1 Hin Hs)
        as (Hin1 & acts & Hh & Hes).
      rewrite (IH s1 Hnc Hin1 Hr), Hh, Hes, flat_map_app. by rewrite app_assoc. }
    all: destruct Hsame as [Hh Hca]; [done|];
      by rewrite (IH s1 Hnc ltac:(by rewrite Hca) Hr), Hh.
Qed.

Lemma drops_effects (traceID : string) (cs : list client) :
  flat_map (action_effects traceID) (drops cs) =
  map (fun c => ConnClose (c_conn c)) cs.
Proof. induction cs as [|c cs IH]; [done|]. cbn. by rewrite <- IH. Qed.

Lemma reachable_run (t : TCP) (ls : list (Oracle * label)) (s s' : Sys) :
  reachable t s -> run ls s = Some s' -> reachable t s'.
Proof.
  intros [ls0 Hr] Hrun. exists (ls0 ++ ls). by rewrite run_app, Hr.
Qed.

(** X14: the call [Stop(traceID)], from the state in which it is made to
    the state in which it returns nil, in any interleaving with the accept
    routines, the read pipelines, [Do] and [DropConnections].

    Once past its check [Stop] sets the shutting-down flag, calls [Close]
    on the listener field, shuts down the receive and then the send pool
    when the manager owns them, takes a snapshot of the registry, and for
    each client of the snapshot closes the socket and waits for its read
    pipeline; then it waits for the wait group.  The first four steps
    depend on no condition of the manager (how long [Shutdown] takes is
    the pool's matter), the wait for a pipeline blocks while that pipeline
    reads, and the wait for the group blocks while the group is not zero.

    When [Stop] returns, the effects of its own steps were, in this order
    and with nothing else: the [Close] of the listener field, the two pool
    shutdowns if the manager owns the pools, one socket close for each
    client of the snapshot, and the return of nil.  At that moment the
    flag is set, the group is zero, the listener field is nil, every
    accept routine has made its call of [t.wg.Done()], and the pipeline of
    every client of the snapshot has exited.

    [Close] is called on whatever the listener field holds at line 266:
    the listener that passed the check when the two steps after the check
    follow it directly, and nil when an accept routine has cleared the
    field in between.  Nothing is said of a client that was registered
    after the snapshot, nor of the last event of an accept routine, which
    comes after its [t.wg.Done()]. *)
Theorem Stop_sequence (t : TCP) (traceID : string) :
  constructed t ->
  (forall s, is_Some (listener (tcp s)) ->
     Stop_check traceID s = set_hist [] (set_caller (StopMark traceID) s)) /\
  (forall s o,
     caller s = StopMark traceID \/ caller s = StopClose traceID \/
     caller s = StopPools traceID \/ caller s = StopSnapshot traceID ->
     is_Some (caller_step o s)) /\
  (forall s o,
     caller s = StopSnapshot traceID ->
     caller_step o s =
       Some (set_caller (StopDrop traceID (clients (tcp s)))
               (did [Snapshot (clients (tcp s))] s))) /\
  (forall s o c rest,
     caller s = StopDropWait traceID c rest ->
     pipe_exited c (pipes s) = false -> caller_step o s = None) /\
  (forall s o,
     caller s = StopWait traceID -> wg (tcp s) <> 0%Z -> caller_step o s = None) /\
  (forall s0 o1 o2 o3 l0,
     panicked s0 = None -> caller s0 = Idle -> listener (tcp s0) = Some l0 ->
     exists s2,
       run [(o1, LStop traceID); (o2, LCaller); (o3, LCaller)] s0 = Some s2 /\
       caller s2 = StopPools traceID /\
       shuttingDown (tcp s2) = 1%Z /\
       effects_since s0 s2 = [ListenerClose (Some l0)]) /\
  (forall s0 ls s o s',
     reachable t s0 -> caller s0 = Idle -> is_Some (listener (tcp s0)) ->
     no_calls ls -> run ls (Stop_check traceID s0) = Some s ->
     caller s = StopWait traceID -> step o LCaller s = Some s' ->
     exists l m cs,
       caller_effects (ls ++ [(o, LCaller)]) (Stop_check traceID s0) =
         [ListenerClose l] ++
         (if userPools t then []
          else [PoolShutdown (recv t) traceID; PoolShutdown (send t) traceID]) ++
         map (fun c => ConnClose (c_conn c)) cs ++
         [Return "Stop" None] /\
       hist s' =
         [SetShuttingDown; CloseListener l] ++
         (if userPools t then []
          else [ShutdownPool (recv t); ShutdownPool (send t)]) ++
         [Snapshot m] ++
         flat_map (fun c => [DropClose c; DropWaited c]) cs ++
         [AcceptWaited] /\
       cs ≡ₚ (map_to_list m).*2 /\
       caller s' = Idle /\
       shuttingDown (tcp s') = 1%Z /\
       wg (tcp s') = 0%Z /\
       listener (tcp s') = None /\
       Forall released (tasks s') /\
       forall c, c ∈ cs -> pipe_exited c (pipes s') = true).
Proof.
  intros Hcon. split; [|split; [|split; [|split; [|split; [|split]]]]].
  - intros s [l Hl]. unfold Stop_check. by rewrite Hl.
  - intros s o Hca. unfold caller_step.
    destruct Hca as [-> | [-> | [-> | ->]]]; by eexists.
  - intros s o Hca. unfold caller_step. by rewrite Hca.
  - intros s o c rest Hca Hp. unfold caller_step. by rewrite Hca, Hp.
  - intros s o Hca Hw. unfold caller_step. rewrite Hca.
    by destruct (Z.eqb_spec (wg (tcp s)) 0).
  - intros s0 o1 o2 o3 l0 Hp Hca Hl. eexists. cbn. unfold step.
    rewrite Hp, Hca. cbn. unfold Stop_check. rewrite Hl. cbn. rewrite Hp. cbn.
    rewrite Hp. cbn. split; [reflexivity|]. cbn. rewrite Hl.
    split; [done|]. split; [done|]. by apply effects_since_app.
  - intros s0 ls s o s' Hr0 Hca0 Hl0 Hnc Hrun Hca Hstep.
    assert (Hchk : Stop_check traceID s0 =
                   set_hist [] (set_caller (StopMark traceID) s0)).
    { destruct Hl0 as [l0 Hl0]. unfold Stop_check. by rewrite Hl0. }
    assert (Hp0 : panicked s0 = None).
    { destruct (panicked s0) as [msg|] eqn:Hp; [|done]. exfalso.
      destruct ls as [|[o0 l0] ls].
      - cbn in Hrun. injection Hrun as <-. by rewrite Hchk in Hca.
      - cbn in Hrun. unfold step in Hrun. rewrite Hchk in Hrun. cbn in Hrun.
        by rewrite Hp in Hrun. }
    assert (Hr1 : reachable t (Stop_check traceID s0)).
    { eapply (reachable_step t o (LStop traceID)); [done|].
      unfold step. by rewrite Hp0, Hca0. }
    assert (Hr : reachable t s) by (by eapply reachable_run).
    assert (Hcs : caller_step o s = Some s').
    { revert Hstep. unfold step. by destruct (panicked s). }
    destruct (Stop_returns t traceID s s' o Hcon Hr Hca Hcs)
      as (Heq & Hdone & Hl & l & m & cs & Hh & Hperm & Hd & Hex).
    assert (Hrun' : run (ls ++ [(o, LCaller)]) (Stop_check traceID s0) = Some s').
    { rewrite run_app, Hrun. cbn. by rewrite Hstep. }
    assert (Hnc' : no_calls (ls ++ [(o, LCaller)])).
    { apply Forall_app. split; [done|]. by constructor. }
    assert (Hin : inside_Stop traceID (caller (Stop_check traceID s0)))
      by (by rewrite Hchk).
    pose proof (caller_effects_hist traceID _ _ _ Hnc' Hin Hrun') as Hce.
    rewrite Hchk in Hce at 1. cbn [hist set_hist flat_map app] in Hce.
    destruct (Inv_reachable t s Hcon Hr) as [(_ & _ & _ & _ & _) Hw _ _ _ _ _].
    exists l, m, cs.
    split.
    { rewrite <- Hce, Hh. unfold stop_prefix, pool_actions.
      rewrite !flat_map_app, drops_effects. cbn.
      by destruct (userPools t). }
    split.
    { rewrite Hh. unfold stop_prefix, pool_actions, drops.
      by rewrite <- !app_assoc. }
    split; [done|]. split; [by rewrite Heq|]. split.
    { rewrite Forall_forall in Hd. apply (Hd SetShuttingDown).
      rewrite Hh. unfold stop_prefix. set_solver. }
    split.
    { rewrite Heq. cbn. revert Hcs. unfold caller_step. rewrite Hca.
      by destruct (Z.eqb_spec (wg (tcp s)) 0). }
    done.
Qed.

(** The manager is not listening, nobody is inside [Start] or [Stop],
    and every accept routine has left its loop and made its call of
    [t.wg.Done()]. *)
Definition quiet (s : Sys) : Prop :=
  listener (tcp s) = None /\ caller s = Idle /\ panicked s = None /\
  Forall released (tasks s).

Definition no_Start (ls : list (Oracle * label)) : Prop :=
  Forall (fun ol => forall traceID, ol.2 <> LStart traceID) ls.

(** What a refused [Stop] leaves: the state with the error recorded. *)
Definition Stop_refused (s : Sys) : Sys :=
  emit [Return "Stop" (Some "This TCP has already been stopped")] s.

Lemma quiet_step (o : Oracle) (l : label) (s s' : Sys) :
  quiet s -> (forall traceID, l <> LStart traceID) ->
  step o l s = Some s' -> quiet s'.
Proof.
  intros (Hl & Hc & Hp & Hd) Hns. unfold step. rewrite Hp.
  destruct l as [tid|tid| |i|k|tid r|tid b].
  - by destruct (Hns tid).
  - rewrite Hc. cbn. unfold Stop_check. rewrite Hl. by intros [= <-].
  - unfold caller_step. by rewrite Hc.
  - unfold accept_step. destruct (tasks s !! i) as [a|] eqn:Hi; [|done].
    pose proof (Forall_lookup_1 _ _ _ _ Hd Hi) as [Ha|Ha];
      unfold accept_enabled, accept_body; rewrite Ha; [|done].
    intros [= <-]. unfold quiet. cbn. repeat (split; [done|]).
    apply Forall_insert; [done|]. by right.
  - unfold pipe_step. destruct (pipes s !! k) as [p|]; [|done].
    destruct (p_state p); [|done].
    destruct (pipe_body o p s) as [p' s1] eqn:Hb. intros [= <-].
    destruct (pipe_body_frame _ _ _ _ _ Hb)
      as (_ & _ & Hl' & _ & Hts & _ & Hca & _ & Hpa).
    unfold quiet. cbn. by rewrite Hl', Hts, Hca, Hpa.
  - unfold Do. by destruct (clients (tcp s) !! r_TCPAddr r); intros [= <-].
  - intros [= <-]. by destruct b.
Qed.

Lemma quiet_run (ls : list (Oracle * label)) (s s' : Sys) :
  quiet s -> no_Start ls -> run ls s = Some s' -> quiet s'.
Proof.
  revert s. induction ls as [|[o l] ls IH]; intros s Hq Hns; cbn.
  - by intros [= <-].
  - apply Forall_cons in Hns as [Hl Hns].
    destruct (step o l s) as [s1|] eqn:Hs; [|done].
    apply IH; [|done]. by eapply quiet_step.
Qed.

(** C8: [Stop] on a manager that holds no listener returns the error and
    does nothing else: the manager, the routines and the pipelines are as
    they were and the only thing logged is the return, so no flag is set,
    no listener closed, no pool shut down and the registry is untouched.
    That is the case for a manager that was never started, and for a
    manager on which [Stop] has returned nil, however often [Stop] is
    called again and whatever else but [Start] happens in between. *)
Theorem Stop_refused_without_listener (t : TCP) (traceID : string) :
  constructed t ->
  (forall s, tcp (Stop_refused s) = tcp s /\ tasks (Stop_refused s) = tasks s /\
             pipes (Stop_refused s) = pipes s /\ hist (Stop_refused s) = hist s /\
             caller (Stop_refused s) = caller s /\
             effects_since s (Stop_refused s) =
               [Return "Stop" (Some "This TCP has already been stopped")]) /\
  (forall o, step o (LStop traceID) (init t) = Some (Stop_refused (init t))) /\
  (forall s o s' stopID ls s'' o1 o2,
     reachable t s -> caller s = StopWait stopID ->
     step o LCaller s = Some s' ->
     no_Start ls -> run ls s' = Some s'' ->
     step o1 (LStop traceID) s'' = Some (Stop_refused s'') /\
     step o2 (LStop traceID) (Stop_refused s'') =
       Some (Stop_refused (Stop_refused s''))).
Proof.
  intros Hcon. split; [|split].
  - intros s. repeat (split; [done|]). by apply effects_since_app.
  - intros o. destruct Hcon as (Hl & _). unfold step, Stop_check. cbn.
    by rewrite Hl.
  - intros s o s' stopID ls s'' o1 o2 Hr Hca Hstep Hns Hrun.
    revert Hstep. unfold step. destruct (panicked s) eqn:Hp; [done|].
    intros Hstep.
    destruct (Stop_returns t stopID s s' o Hcon Hr Hca Hstep)
      as (Heq & Hdone & Hl & _).
    assert (Hq : quiet s') by (rewrite Heq in *; done).
    assert (Hq2 : quiet s'') by (by eapply quiet_run).
    assert (Hq3 : quiet (Stop_refused s'')) by (destruct Hq2 as (?&?&?&?); done).
    split.
    + destruct Hq2 as (Hl2 & Hc2 & Hp2 & _).
      unfold Stop_check. rewrite Hp2, Hc2. cbn. by rewrite Hl2.
    + destruct Hq3 as (Hl2 & Hc2 & Hp2 & _).
      unfold Stop_check. rewrite Hp2, Hc2. cbn. cbn in Hl2. by rewrite Hl2.
Qed.

(** ** Start *)



(** * A manager on 0.0.0.0:6000 *)

Definition demo_cfg (limit : option (unit -> Duration)) : Config :=
  mkConfig "tcp4" "0.0.0.0:6000" None None 1%Z 10%Z 1%Z 10%Z limit
           (fun _ conn => (conn_id conn, conn_id conn)).

Definition demo_resolve (net addr : string) : error + TCPAddr :=
  inr (mkTCPAddr "0.0.0.0" 6000%Z).

Definition demo_pool_New (traceID name : string) (pc : PoolConfig) : error + Pool :=
  if String.eqb name "srv-Recv" then inr 1 else inr 2.

Definition demo_tcp (limit : option (unit -> Duration)) : TCP :=
  mkTCP (demo_cfg limit) "srv" "0.0.0.0" 6000%Z (mkTCPAddr "0.0.0.0" 6000%Z)
        None ∅ 1 2 false 0%Z 0%Z 0%Z zeroTime.

Definition demo_conn : Conn := mkConn 1 "10.0.0.5:5555" "0.0.0.0:6000".
Definition demo_conn2 : Conn := mkConn 2 "10.0.0.6:7777" "0.0.0.0:6000".

Definition demo_client : client :=
  mkClient "t-10.0.0.5:5555" demo_conn "10.0.0.5:5555" 1 1 0.

Definition ErrClosed : neterror :=
  mkNetError "use of closed network connection" (Some false).
Definition ErrTooManyFiles : neterror :=
  mkNetError "accept tcp4 0.0.0.0:6000: accept4: too many open files" (Some true).
Definition EOF : neterror := mkNetError "EOF" None.

(** The listener binds as 7, [Accept] returns [demo_conn], the clock reads
    100, the read handler sees the end of the stream. *)
Definition demo_o : Oracle :=
  mkOracle (inr 7) (inr demo_conn) 100%Z (inl EOF) "10.0.0.5:5555".
(** As [demo_o], with [Accept] failing on the closed listener. *)
Definition demo_closed : Oracle :=
  mkOracle (inr 7) (inl ErrClosed) 100%Z (inl EOF) "10.0.0.5:5555".
(** As [demo_o], with [Accept] failing for lack of descriptors. *)
Definition demo_busy : Oracle :=
  mkOracle (inr 7) (inl ErrTooManyFiles) 100%Z (inl EOF) "10.0.0.5:5555".

Definition after (ls : list (Oracle * label)) (s : Sys) : Sys :=
  default s (run ls s).

(** [Start] up to the moment it returns nil. *)
Definition run_start : list (Oracle * label) :=
  [(demo_o, LStart "t"); (demo_o, LCaller); (demo_o, LAccept 0);
   (demo_o, LCaller)].

(** One connection accepted and registered. *)
Definition run_accept : list (Oracle * label) :=
  [(demo_o, LAccept 0); (demo_o, LAccept 0); (demo_o, LAccept 0);
   (demo_o, LAccept 0); (demo_o, LAccept 0)].

(** What follows the check of [Stop] up to its wait for the accept
    routine: the pipeline of the one client ends when its socket is
    closed, and the accept routine leaves its loop and makes its call of
    [t.wg.Done()]. *)
Definition run_in_stop : list (Oracle * label) :=
  [(demo_o, LCaller); (demo_o, LCaller);
   (demo_o, LCaller); (demo_o, LCaller); (demo_o, LCaller);
   (demo_o, LPipe 0); (demo_o, LCaller); (demo_o, LCaller);
   (demo_closed, LAccept 0); (demo_closed, LAccept 0);
   (demo_closed, LAccept 0); (demo_closed, LAccept 0)].

(** [Stop] from its check to its wait for the accept routine, and the
    accept routine to its return. *)
Definition run_stop : list (Oracle * label) :=
  (demo_o, LStop "s") :: run_in_stop ++ [(demo_closed, LAccept 0)].

(** [Start], then [Stop] as far as the step that handles the pools. *)
Definition run_to_pools : list (Oracle * label) :=
  run_start ++ [(demo_o, LStop "s"); (demo_o, LCaller); (demo_o, LCaller)].


(** A connection is accepted just before [Stop] is called and joins after
    [Stop] has taken its snapshot: [Accept] returns (the routine is at line
    212), [Stop] runs from its check to its wait for the accept routine,
    the routine registers the connection, goes round the loop, finds the
    listener closed and the flag set, and returns; [Stop] returns. *)
Definition run_late_join : list (Oracle * label) :=
  run_start ++
  [(demo_o, LAccept 0);
   (demo_o, LStop "s"); (demo_o, LCaller); (demo_o, LCaller);
   (demo_o, LCaller); (demo_o, LCaller); (demo_o, LCaller);
   (demo_o, LAccept 0); (demo_o, LAccept 0); (demo_o, LAccept 0);
   (demo_o, LAccept 0);
   (demo_closed, LAccept 0); (demo_closed, LAccept 0);
   (demo_closed, LAccept 0); (demo_closed, LAccept 0);
   (demo_closed, LAccept 0);
   (demo_o, LCaller)].

Lemma demo_constructed (limit : option (unit -> Duration)) :
  constructed (demo_tcp limit).
Proof. done. Qed.

Lemma demo_New (limit : option (unit -> Duration)) :
  New Validate_spec demo_resolve demo_pool_New "t" "srv" (demo_cfg limit) =
  inr (demo_tcp limit).
Proof. reflexivity. Qed.

Example demo_started :
  let s := after run_start (init (demo_tcp None)) in
  run run_start (init (demo_tcp None)) = Some s /\
  listener (tcp s) = Some 7 /\ caller s = Idle /\ wg (tcp s) = 1%Z /\
  trace s = [GoAccept "t"; ListenTCP 7;
             Event "t" "accept" "Waiting For Connections : IPAddress[ %s ]"
               [AStr "0.0.0.0:6000"];
             Return "Start" None].
Proof. vm_compute. done. Qed.

Example demo_stopped :
  let s := after (run_start ++ run_accept ++ run_stop ++ [(demo_o, LCaller)])
                 (init (demo_tcp None)) in
  listener (tcp s) = None /\ caller s = Idle /\ wg (tcp s) = 0%Z /\
  clients (tcp s) = ∅ /\ shuttingDown (tcp s) = 1%Z /\
  map p_state (pipes s) = [Exited] /\
  map a_pc (tasks s) = [AcceptDone] /\
  hist s = [SetShuttingDown; CloseListener (Some 7); ShutdownPool 1;
            ShutdownPool 2; Snapshot {["10.0.0.5:5555" := demo_client]};
            DropClose demo_client; DropWaited demo_client; AcceptWaited].
Proof. vm_compute. done. Qed.

Ltac not_in_log :=
  let H := fresh in
  intros H; repeat (apply elem_of_cons in H as [H|H]; [discriminate H|]);
  by apply elem_of_nil in H.

(** ** The theorems at the demo manager *)

Lemma join_one_client_per_address_witness :
  registry_ok (tcp (init (demo_tcp None))) /\
  let s' := joins "t" [demo_conn; demo_conn; demo_conn2] (init (demo_tcp None)) in
  registry_ok (tcp s') /\ (forall a, length (clients_at a (tcp s')) <= 1) /\
  size (clients (tcp s')) = 2.
Proof.
  assert (H : registry_ok (tcp (init (demo_tcp None)))).
  { intros k c. cbn. by rewrite lookup_empty. }
  split; [exact H|].
  destruct (join_one_client_per_address "t" [demo_conn; demo_conn; demo_conn2]
              (init (demo_tcp None)) H) as (H1 & H2 & _).
  split; [exact H1|]. split; [exact H2|]. vm_compute. reflexivity.
Defined.

(** The three kinds of error at a started manager: one marked not
    temporary, one marked temporary, one without the method. *)
Lemma accept_error_witness :
  let s := after run_start (init (demo_tcp None)) in
  let a := mkTask "t" (Some 7) 0%Z AcceptWait in
  let report := fun e : neterror => Event "t" "accept" "ERROR : %v" [AErr (Error e)] in
  shuttingDown (tcp s) = 0%Z /\
  accept_run [demo_o; demo_o; demo_o] (at_pc (AcceptFailed ErrClosed) a) s =
    (mkTask "t" (Some 7) 1%Z AcceptTop,
     upd_tcp (set_listener None)
       (emit [report ErrClosed; ListenerClose (Some 7)] s)) /\
  accept_run [demo_o; demo_o; demo_o] (at_pc (AcceptFailed ErrTooManyFiles) a) s =
    (a, emit [report ErrTooManyFiles] s) /\
  accept_run [demo_o; demo_o; demo_o] (at_pc (AcceptFailed EOF) a) s =
    (a, emit [report EOF] s).
Proof.
  intros s a report.
  assert (H0 : shuttingDown (tcp s) = 0%Z) by (vm_compute; reflexivity).
  assert (Hl : listener (tcp s) = Some 7) by (vm_compute; reflexivity).
  split; [exact H0|]. split; [|split].
  - destruct (accept_error demo_o demo_o demo_o demo_o ErrClosed a s)
      as (_ & H & _).
    destruct (H H0) as [H1 _]; [reflexivity|]. rewrite Hl in H1. exact H1.
  - destruct (accept_error demo_o demo_o demo_o demo_o ErrTooManyFiles a s)
      as (_ & _ & H).
    destruct (H H0) as [_ H1]; [left; reflexivity|]. exact (H1 7 Hl).
  - destruct (accept_error demo_o demo_o demo_o demo_o EOF a s)
      as (_ & _ & H).
    destruct (H H0) as [_ H1]; [right; reflexivity|]. exact (H1 7 Hl).
Defined.

Definition every_ten : unit -> Duration := fun _ => 10%Z.

Lemma rate_limit_witness :
  let s := init (demo_tcp (Some every_ten)) in
  let a := mkTask "t" (Some 7) 0%Z AcceptWait in
  RateLimit (cfg (tcp s)) = Some every_ten /\
  (let s2 := serve_all a [(100%Z, demo_conn); (105%Z, demo_conn2)] s in
   size (clients (tcp s2)) = 1 /\ ConnClose demo_conn2 ∈ effects_since s s2) /\
  (let s2 := serve_all a [(100%Z, demo_conn); (110%Z, demo_conn2)] s in
   size (clients (tcp s2)) = 2 /\ forall c, ConnClose c ∉ effects_since s s2).
Proof.
  intros s a.
  assert (H : RateLimit (cfg (tcp s)) = Some every_ten) by reflexivity.
  split; [exact H|].
  destruct (rate_limit a s every_ten H) as (_ & _ & H3).
  split.
  - destruct (H3 100%Z 105%Z demo_conn demo_conn2) as [Hlt _];
      [vm_compute; discriminate|vm_compute; discriminate|vm_compute; discriminate
      |reflexivity|reflexivity|].
    destruct Hlt as (_ & _ & Hsize & Hclose & _); [reflexivity|].
    split; [exact Hsize|exact Hclose].
  - destruct (H3 100%Z 110%Z demo_conn demo_conn2) as [_ Hge];
      [vm_compute; discriminate|vm_compute; discriminate|vm_compute; discriminate
      |reflexivity|reflexivity|].
    destruct Hge as (_ & Hsize & Hclose & _); [vm_compute; discriminate|].
    split; [exact Hsize|exact Hclose].
Defined.

Lemma pools_owned_iff_no_recv_pool_witness :
  let s := after run_to_pools (init (demo_tcp None)) in
  exists s',
    caller_step demo_o s = Some s' /\ caller s' = StopSnapshot "s" /\
    effects_since s s' = [PoolShutdown 1 "s"; PoolShutdown 2 "s"].
Proof.
  intros s.
  destruct (pools_owned_iff_no_recv_pool Validate_spec demo_resolve demo_pool_New
              "t" "srv" (demo_cfg None) (demo_tcp None) s demo_o "s")
    as (s' & H1 & H2 & H3 & _).
  - reflexivity.
  - exists run_to_pools. vm_compute. reflexivity.
  - vm_compute. reflexivity.
  - exists s'. split; [exact H1|]. split; [exact H2|exact H3].
Defined.

Lemma Stop_sequence_witness :
  let s0 := after (run_start ++ run_accept) (init (demo_tcp None)) in
  let s := after run_in_stop (Stop_check "s" s0) in
  let s' := after [(demo_o, LCaller)] s in
  constructed (demo_tcp None) /\
  map a_pc (tasks s') = [AcceptShutdown] /\
  exists l (m : gmap string client) cs,
    caller_effects (run_in_stop ++ [(demo_o, LCaller)]) (Stop_check "s" s0) =
      [ListenerClose l; PoolShutdown 1 "s"; PoolShutdown 2 "s"] ++
      map (fun c => ConnClose (c_conn c)) cs ++ [Return "Stop" None] /\
    cs ≡ₚ (map_to_list m).*2 /\
    wg (tcp s') = 0%Z /\ listener (tcp s') = None /\
    Forall released (tasks s') /\
    forall c, c ∈ cs -> pipe_exited c (pipes s') = true.
Proof.
  intros s0 s s'.
  pose proof (demo_constructed None) as Hcon. split; [exact Hcon|].
  split; [vm_compute; reflexivity|].
  destruct (Stop_sequence (demo_tcp None) "s" Hcon) as (_ & _ & _ & _ & _ & _ & H).
  destruct (H s0 run_in_stop s demo_o s')
    as (l & m & cs & H1 & _ & H3 & _ & _ & H6 & H7 & H8 & H9).
  - exists (run_start ++ run_accept). vm_compute. reflexivity.
  - vm_compute. reflexivity.
  - exists 7. vm_compute. reflexivity.
  - repeat constructor.
  - vm_compute. reflexivity.
  - vm_compute. reflexivity.
  - vm_compute. reflexivity.
  - exists l, m, cs. split; [exact H1|]. split; [exact H3|].
    split; [exact H6|]. split; [exact H7|]. split; [exact H8|exact H9].
Defined.

Lemma Stop_refused_without_listener_witness :
  let s := after (run_start ++ run_accept ++ run_stop) (init (demo_tcp None)) in
  let s' := after [(demo_o, LCaller)] s in
  constructed (demo_tcp None) /\
  step demo_o (LStop "again") (init (demo_tcp None)) =
    Some (Stop_refused (init (demo_tcp None))) /\
  step demo_o (LStop "again") s' = Some (Stop_refused s') /\
  step demo_o (LStop "again") (Stop_refused s') =
    Some (Stop_refused (Stop_refused s')).
Proof.
  intros s s'.
  pose proof (demo_constructed None) as Hcon. split; [exact Hcon|].
  destruct (Stop_refused_without_listener (demo_tcp None) "again" Hcon)
    as (_ & H2 & H3).
  split; [exact (H2 demo_o)|].
  apply (H3 s demo_o s' "s" [] s' demo_o demo_o).
  - exists (run_start ++ run_accept ++ run_stop). vm_compute. reflexivity.
  - vm_compute. reflexivity.
  - vm_compute. reflexivity.
  - constructor.
  - reflexivity.
Defined.


(** ** Where the code leaves two claims *)


(** C3: the claim has [Stop] not return before the read pipeline of every
    registered client has exited, and the comment of [Stop] has it close
    all connections.  Here a connection is accepted just before [Stop] is
    called and registered just after [Stop] has taken its snapshot.
    [Stop] returns nil while that client is registered, its socket never
    closed and its pipeline still reading; and since the listener field is
    nil by then, every later [Stop] is refused and closes nothing. *)
Lemma Stop_returns_with_late_client :
  let s := after run_late_join (init (demo_tcp None)) in
  run run_late_join (init (demo_tcp None)) = Some s /\
  last (trace s) = Some (Return "Stop" None) /\
  caller s = Idle /\
  hist s = [SetShuttingDown; CloseListener (Some 7); ShutdownPool 1;
            ShutdownPool 2; Snapshot ∅; AcceptWaited] /\
  clients (tcp s) !! "10.0.0.5:5555" = Some demo_client /\
  pipe_exited demo_client (pipes s) = false /\
  (ConnClose (c_conn demo_client) ∉ trace s) /\
  step demo_o (LStop "again") s =
    Some (emit [Return "Stop" (Some "This TCP has already been stopped")] s).
Proof.
  intros s.
  assert (Htr : trace s =
    [GoAccept "t"; ListenTCP 7;
     Event "t" "accept" "Waiting For Connections : IPAddress[ %s ]"
       [AStr "0.0.0.0:6000"];
     Return "Start" None; ListenerClose (Some 7);
     PoolShutdown 1 "s"; PoolShutdown 2 "s";
     Event "t-10.0.0.5:5555" "join"
       "Remote IPAddress[ %s ], Local IPAddress[ %v ]"
       [AStr "10.0.0.5:5555"; AStr "0.0.0.0:6000"];
     GoRead demo_client;
     Event "t" "accept" "Shutdown : IPAddress[ %s ]" [AStr "0.0.0.0:6000"];
     Return "Stop" None]) by (vm_compute; reflexivity).
  split; [vm_compute; reflexivity|]. split; [by rewrite Htr|].
  split; [vm_compute; reflexivity|]. split; [vm_compute; reflexivity|].
  split; [vm_compute; reflexivity|]. split; [vm_compute; reflexivity|].
  split; [rewrite Htr; not_in_log|].
  unfold step, Stop_check.
  assert (panicked s = None) as -> by (vm_compute; reflexivity).
  assert (caller s = Idle) as -> by (vm_compute; reflexivity).
  assert (listener (tcp s) = None) as -> by (vm_compute; reflexivity).
  reflexivity.
Qed.

(** [Stop] calls [Close] on the listener field as it finds it at line 266.
    Here [Accept] fails for a reason of its own just after [Stop] has set
    the flag: the routine clears the field and leaves the loop, [Stop]
    calls [Close] on nil and returns nil, and the listener bound as 7 is
    never closed. *)
Definition run_cleared_field : list (Oracle * label) :=
  run_start ++
  [(demo_o, LStop "s"); (demo_o, LCaller);
   (demo_busy, LAccept 0); (demo_busy, LAccept 0); (demo_busy, LAccept 0);
   (demo_o, LCaller); (demo_o, LCaller); (demo_o, LCaller); (demo_o, LCaller);
   (demo_o, LAccept 0);
   (demo_o, LCaller)].

Example Stop_closes_cleared_field :
  let s := after run_cleared_field (init (demo_tcp None)) in
  run run_cleared_field (init (demo_tcp None)) = Some s /\
  last (trace s) = Some (Return "Stop" None) /\
  hist s = [SetShuttingDown; CloseListener None; ShutdownPool 1;
            ShutdownPool 2; Snapshot ∅; AcceptWaited] /\
  (ListenTCP 7 ∈ trace s) /\ (ListenerClose (Some 7) ∉ trace s).
Proof.
  intros s.
  assert (Htr : trace s =
    [GoAccept "t"; ListenTCP 7;
     Event "t" "accept" "Waiting For Connections : IPAddress[ %s ]"
       [AStr "0.0.0.0:6000"];
     Return "Start" None; ListenerClose None;
     PoolShutdown 1 "s"; PoolShutdown 2 "s";
     Return "Stop" None]) by (vm_compute; reflexivity).
  split; [vm_compute; reflexivity|]. split; [by rewrite Htr|].
  split; [vm_compute; reflexivity|]. rewrite Htr.
  split; [set_solver|not_in_log].
Qed.

(** [Stop] can return before the accept routine has reported its last
    event: the routine makes its call of [t.wg.Done()] first. *)
Example Stop_returns_before_last_event :
  let s := after (run_start ++ run_accept ++ [(demo_o, LStop "s")] ++
                  run_in_stop ++ [(demo_o, LCaller); (demo_closed, LAccept 0)])
                 (init (demo_tcp None)) in
  map a_pc (tasks s) = [AcceptDone] /\
  drop 12 (trace s) =
    [Return "Stop" None;
     Event "t" "accept" "Shutdown : IPAddress[ %s ]" [AStr "0.0.0.0:6000"]].
Proof. vm_compute. done. Qed.

(** * More of the code *)

(** ** What the log may hold *)

(** The entries the manager may log: a pool is shut down only when the
    manager owns the pools, and only the receive or the send pool; work
    is posted to the manager's own pools, requests to the receive pool and
    responses to the send pool, a response with manager, client and trace
    id bound to it; [Start], [Stop] and [Do] return nil or their one
    error; writing, completing and processing are left to the pools. *)
Definition allowed (t : TCP) (e : effect) : Prop :=
  match e with
  | PoolShutdown p _ => userPools t = false /\ (p = recv t \/ p = send t)
  | PoolDo p traceID (WorkResponse r) =>
    p = send t /\ r_tcp r = Some (Name t) /\ r_traceID r = traceID /\
    exists c, r_client r = Some c /\ c_ipAddress c = r_TCPAddr r
  | PoolDo p _ (WorkRequest _) => p = recv t
  | Return op (Some err) =>
    op = "Start" /\ err = "This TCP has already been started" \/
    op = "Stop" /\ err = "This TCP has already been stopped" \/
    op = "Do" /\ exists addr, err = "IP Address disconnected [ " +:+ addr +:+ " ]"
  | Return op None => op = "Start" \/ op = "Stop" \/ op = "Do"
  | RespWrite _ _ _ | RespComplete _ _ | ReqProcess _ _ => False
  | _ => True
  end.

(** Every registered client sits under the remote address of its socket
    and was created by [join], which started its read routine. *)
Definition registered_ok (s : Sys) : Prop :=
  forall k c, clients (tcp s) !! k = Some c ->
    c_ipAddress c = k /\ RemoteAddr (c_conn c) = k /\ GoRead c ∈ trace s.

(** The second invariant: the registry is keyed by the address of its
    clients, the listener of the manager came from [net.ListenTCP], the
    log holds allowed entries only, and the two flags are 0 or 1. *)
Record Inv2 (t : TCP) (s : Sys) : Prop := mkInv2 {
  inv_registry : registered_ok s;
  inv_bound : forall l, listener (tcp s) = Some l -> ListenTCP l ∈ trace s;
  inv_log : Forall (allowed t) (trace s);
  inv_drop : dropConns (tcp s) = 0%Z \/ dropConns (tcp s) = 1%Z;
  inv_shut : shuttingDown (tcp s) = 0%Z \/ shuttingDown (tcp s) = 1%Z
}.

Lemma Inv2_init (t : TCP) : constructed t -> Inv2 t (init t).
Proof.
  intros (Hl & Hc & _ & Hd & Hs & _). split; cbn.
  - intros k c. cbn. by rewrite Hc, lookup_empty.
  - intros l. by rewrite Hl.
  - constructor.
  - by left.
  - by left.
Qed.

(** A step that leaves the registry alone. *)
Lemma Inv2_frame (t : TCP) (s s' : Sys) (es : list effect) :
  Inv2 t s ->
  clients (tcp s') = clients (tcp s) ->
  trace s' = trace s ++ es -> Forall (allowed t) es ->
  (listener (tcp s') = listener (tcp s) \/ listener (tcp s') = None \/
   exists l, listener (tcp s') = Some l /\ ListenTCP l ∈ es) ->
  (dropConns (tcp s') = dropConns (tcp s) \/
   dropConns (tcp s') = 0%Z \/ dropConns (tcp s') = 1%Z) ->
  (shuttingDown (tcp s') = shuttingDown (tcp s) \/ shuttingDown (tcp s') = 1%Z) ->
  Inv2 t s'.
Proof.
  intros [Hr Hb Hlog Hd Hs] Hc Htr Hes Hl Hd' Hs'. split.
  - intros k c Hk. rewrite Hc in Hk. destruct (Hr k c Hk) as (? & ? & ?).
    split; [done|]. split; [done|]. rewrite Htr. apply elem_of_app. by left.
  - intros l Hl1. rewrite Htr. apply elem_of_app.
    destruct Hl as [Hl|[Hl|(l' & Hl & Hin)]].
    + left. apply Hb. by rewrite <- Hl.
    + congruence.
    + right. congruence.
  - rewrite Htr. by apply Forall_app.
  - destruct Hd' as [->|Hd']; [done|]. by destruct Hd'; [left|right].
  - destruct Hs' as [->|Hs']; [done|by right].
Qed.

Lemma Inv2_join (t : TCP) (traceID : string) (conn : Conn) (s : Sys) :
  Inv2 t s -> Inv2 t (join traceID conn s).
Proof.
  intros HI. pose proof HI as [Hr Hb Hlog Hd Hs].
  destruct (clients (tcp s) !! RemoteAddr conn) as [c0|] eqn:H.
  - rewrite (join_present _ _ _ _ H).
    eapply Inv2_frame; [done|done|done| |by left..].
    repeat constructor.
  - destruct (join_extends traceID conn s) as (_ & _ & Hl & _).
    destruct (join_absent traceID conn s H) as (Ht & _ & Htr & _).
    split.
    + intros k c. rewrite Ht, Htr. cbn. rewrite lookup_insert.
      case_decide as Hk.
      * intros [= <-]. subst k. cbn. split; [done|]. split; [done|].
        apply elem_of_app. right. right. left.
      * intros Hkc. destruct (Hr k c Hkc) as (? & ? & ?).
        split; [done|]. split; [done|]. apply elem_of_app. by left.
    + intros l Hl1. rewrite Htr. apply elem_of_app. left. apply Hb.
      by rewrite <- Hl.
    + rewrite Htr. apply Forall_app. split; [done|]. repeat constructor.
    + by rewrite Ht.
    + by rewrite Ht.
Qed.

Lemma Inv2_remove (t : TCP) (traceID : string) (conn : Conn) (s : Sys) :
  Inv2 t s -> Inv2 t (remove traceID conn s).
Proof.
  intros HI. pose proof HI as [Hr Hb Hlog Hd Hs].
  destruct (clients (tcp s) !! RemoteAddr conn) as [c0|] eqn:H.
  - rewrite (remove_present _ _ _ _ H). split; cbn.
    + intros k c Hk. cbn in Hk.
      apply lookup_delete_Some in Hk as [_ Hk].
      destruct (Hr k c Hk) as (? & ? & ?).
      split; [done|]. split; [done|]. apply elem_of_app. by left.
    + intros l Hl. apply elem_of_app. left. by apply Hb.
    + apply Forall_app. split; [done|]. repeat constructor.
    + done.
    + done.
  - rewrite (remove_absent _ _ _ H).
    eapply Inv2_frame; [done|done|done| |by left..].
    repeat constructor.
Qed.

Ltac solve_trace :=
  cbn; first [symmetry; apply app_nil_r | rewrite <- ?app_assoc; reflexivity].

Ltac split_log :=
  repeat match goal with |- Forall _ _ => constructor end; cbn.

Ltac solve_listener :=
  first [by left | by (right; left)
        | right; right; eexists; split; [cbn; reflexivity|set_solver]].

Lemma Inv2_accept_body (t : TCP) (o : Oracle) (a a' : AcceptTask) (s s' : Sys) :
  Inv2 t s -> accept_body o a s = (a', s') -> Inv2 t s'.
Proof.
  intros HI. unfold accept_body.
  destruct (a_pc a) as [| |e| |e| |conn|conn|conn| | |]; repeat case_match;
    intros [= <- <-]; try (by apply Inv2_join);
    (eapply Inv2_frame;
     [done|cbn; done|solve_trace|repeat constructor|solve_listener
     |by left|by left]).
Qed.

Lemma Inv2_projections (t : TCP) (s s' : Sys) :
  tcp s' = tcp s -> trace s' = trace s -> Inv2 t s -> Inv2 t s'.
Proof.
  intros Ht Htr [Hr ? ? ? ?]. split; try (by rewrite ?Ht, ?Htr).
  intros k c Hk. rewrite Ht in Hk. rewrite Htr. by apply Hr.
Qed.

Lemma Inv2_caller (t : TCP) (o : Oracle) (s s' : Sys) :
  Inv t s -> Inv2 t s -> caller_step o s = Some s' -> Inv2 t s'.
Proof.
  intros [(_ & _ & Hrecv & Hsend & Hup) _ _ _ _ _ _] HI. unfold caller_step.
  destruct (caller s) as [|tid|tid i|tid|tid|tid|tid|tid rest|tid c rest|tid];
    repeat case_match; try done; intros [= <-];
    (eapply Inv2_frame;
      [done|cbn; done|solve_trace|split_log
      |solve_listener|by left|first [by left|by right]]).
  all: try exact I.
  all: try (split; [congruence|]; first [left; congruence|right; congruence]).
  all: first [by left|by (right; left)].
Qed.

Lemma Inv2_pipe_body (t : TCP) (o : Oracle) (p p' : Pipeline) (s s' : Sys) :
  Inv t s -> Inv2 t s -> pipe_body o p s = (p', s') -> Inv2 t s'.
Proof.
  intros [(_ & _ & Hrecv & _) _ _ _ _ _ _] HI. unfold pipe_body.
  repeat case_match; intros [= <- <-]; try done; try (by apply Inv2_remove).
  eapply Inv2_frame;
    [done|cbn; done|solve_trace|split_log; done
    |solve_listener|by left|by left].
Qed.

Lemma Inv2_Do (t : TCP) (traceID : string) (r : Response) (s : Sys) :
  Inv t s -> Inv2 t s ->
  Inv2 t (emit [Return "Do" (Do traceID r s).1.1] (Do traceID r s).2).
Proof.
  intros [(_ & Hname & _ & Hsend & _) _ _ _ _ _ _] HI. unfold Do.
  destruct (clients (tcp s) !! r_TCPAddr r) as [c|] eqn:Hc; cbn.
  - eapply Inv2_frame; [done|cbn; done|solve_trace| |by left..].
    split_log; [|right; by right].
    split; [done|]. split; [by rewrite Hname|]. split; [done|].
    exists c. split; [done|]. destruct HI as [Hr _ _ _ _]. by apply Hr.
  - eapply Inv2_frame; [done|cbn; done|solve_trace| |by left..].
    split_log. right. right. split; [done|]. by eexists.
Qed.

Lemma Inv2_step (t : TCP) (o : Oracle) (l : label) (s s' : Sys) :
  Inv t s -> Inv2 t s -> step o l s = Some s' -> Inv2 t s'.
Proof.
  intros HI HI2. unfold step. destruct (panicked s); [done|].
  destruct l as [tid|tid| |i|k|tid r|tid b].
  - destruct (is_idle (caller s)); [|done]. intros [= <-].
    unfold Start_check. destruct (listener (tcp s)).
    + eapply Inv2_frame; [done|cbn; done|solve_trace| |by left..].
      split_log. by left.
    + eapply Inv2_projections; [| |done]; done.
  - destruct (is_idle (caller s)); [|done]. intros [= <-].
    unfold Stop_check. destruct (listener (tcp s)).
    + eapply Inv2_projections; [| |done]; done.
    + eapply Inv2_frame; [done|cbn; done|solve_trace| |by left..].
      split_log. right. by left.
  - by apply Inv2_caller.
  - unfold accept_step. destruct (tasks s !! i) as [a|]; [|done].
    destruct (accept_enabled a); [|done].
    destruct (accept_body o a s) as [a' s1] eqn:Hb. intros [= <-].
    eapply Inv2_projections; [| |by eapply Inv2_accept_body]; done.
  - unfold pipe_step. destruct (pipes s !! k) as [p|]; [|done].
    destruct (p_state p); [|done].
    destruct (pipe_body o p s) as [p' s1] eqn:Hb. intros [= <-].
    eapply Inv2_projections; [| |by eapply Inv2_pipe_body]; done.
  - pose proof (Inv2_Do t tid r s HI HI2) as H.
    destruct (Do tid r s) as [[err r'] s1]. by intros [= <-].
  - intros [= <-]. destruct b; cbn.
    + eapply Inv2_frame; [done|cbn; done|solve_trace|constructor|by left
                         |by right; right|by left].
    + eapply Inv2_frame; [done|cbn; done|solve_trace|constructor|by left
                         |by right; left|by left].
Qed.

Lemma Inv2_run (t : TCP) (ls : list (Oracle * label)) (s s' : Sys) :
  Inv t s -> Inv2 t s -> run ls s = Some s' -> Inv2 t s'.
Proof.
  revert s. induction ls as [|[o l] ls IH]; intros s HI HI2; cbn.
  - by intros [= <-].
  - destruct (step o l s) as [s1|] eqn:Hs; [|done].
    apply IH; [by eapply Inv_step|by eapply Inv2_step].
Qed.

Lemma Inv2_reachable (t : TCP) (s : Sys) :
  constructed t -> reachable t s -> Inv2 t s.
Proof.
  intros Hc [ls Hr]. eapply Inv2_run; [| |done]; [by apply Inv_init|by apply Inv2_init].
Qed.

Lemma caller_step_extends (o : Oracle) (s s' : Sys) :
  caller_step o s = Some s' -> extends s s'.
Proof.
  unfold caller_step.
  destruct (caller s); repeat case_match; try done; intros [= <-];
    solve_extends.
Qed.

Lemma step_extends (o : Oracle) (l : label) (s s' : Sys) :
  step o l s = Some s' -> extends s s'.
Proof.
  unfold step. destruct (panicked s); [done|].
  destruct l as [tid|tid| |i|k|tid r|tid b].
  - destruct (is_idle (caller s)); [|done]. intros [= <-].
    unfold Start_check. destruct (listener (tcp s)); solve_extends.
  - destruct (is_idle (caller s)); [|done]. intros [= <-].
    unfold Stop_check. destruct (listener (tcp s)); solve_extends.
  - apply caller_step_extends.
  - unfold accept_step. destruct (tasks s !! i) as [a|]; [|done].
    destruct (accept_enabled a); [|done].
    destruct (accept_body o a s) as [a' s1] eqn:Hb. intros [= <-].
    by apply accept_body_frame in Hb as [? _].
  - unfold pipe_step. destruct (pipes s !! k) as [p|] eqn:Hk; [|done].
    destruct (p_state p) eqn:Hp; [|done].
    destruct (pipe_body o p s) as [p' s1] eqn:Hb. intros [= <-].
    apply pipe_body_frame in Hb as ((Htr & Hf & Hpe) & _ & _ & _ & _ & Hps & _).
    split; [done|]. split; [done|].
    intros c Hc. cbn. rewrite Hps. by eapply pipe_exited_insert.
  - unfold Do. destruct (clients (tcp s) !! r_TCPAddr r); intros [= <-];
      solve_extends.
  - intros [= <-]. destruct b; solve_extends.
Qed.

Lemma run_extends (ls : list (Oracle * label)) (s s' : Sys) :
  run ls s = Some s' -> extends s s'.
Proof.
  revert s. induction ls as [|[o l] ls IH]; intros s; cbn.
  - intros [= <-]. apply extends_refl.
  - destruct (step o l s) as [s1|] eqn:Hs; [|done]. intros Hr.
    eapply extends_trans; [by eapply step_extends|by apply IH].
Qed.

(** ** The shutting-down flag *)

(** X1: nothing clears the shutting-down flag.  Once [Stop] has set it, it
    stays set along every run, whatever is called afterwards, so from then
    on every accept routine, also one started by a later [Start], leaves
    its loop and clears the listener at the first error of [Accept],
    transient or not, without reporting it. *)
Theorem shuttingDown_is_final (ls : list (Oracle * label)) (s s' : Sys) :
  shuttingDown (tcp s) = 1%Z -> run ls s = Some s' ->
  shuttingDown (tcp s') = 1%Z /\
  forall o1 o2 e a,
    accept_run [o1; o2] (at_pc (AcceptFailed e) a) s' =
      (at_pc AcceptBreak a, upd_tcp (set_listener None) s').
Proof.
  intros Hs Hr. apply run_extends in Hr as (_ & Hf & _).
  split; [by apply Hf|]. intros o1 o2 e a. cbn. by rewrite (Hf Hs).
Qed.

(** The rest of a [Stop] that has just set the flag, with no client
    registered, and then [Start] again. *)
Definition run_restart : list (Oracle * label) :=
  [(demo_o, LCaller); (demo_o, LCaller); (demo_o, LCaller); (demo_o, LCaller);
   (demo_closed, LAccept 0); (demo_closed, LAccept 0);
   (demo_closed, LAccept 0); (demo_closed, LAccept 0);
   (demo_closed, LAccept 0);
   (demo_o, LCaller);
   (demo_o, LStart "t2"); (demo_o, LCaller); (demo_o, LAccept 1);
   (demo_o, LCaller)].

Lemma shuttingDown_is_final_witness :
  let s := after (run_start ++ [(demo_o, LStop "s"); (demo_o, LCaller)])
                 (init (demo_tcp None)) in
  let s' := after run_restart s in
  shuttingDown (tcp s) = 1%Z /\ shuttingDown (tcp s') = 1%Z /\
  listener (tcp s') = Some 7 /\
  map a_pc (tasks s') = [AcceptDone; AcceptWait].
Proof.
  intros s s'.
  assert (H : shuttingDown (tcp s) = 1%Z) by (vm_compute; reflexivity).
  split; [exact H|].
  destruct (shuttingDown_is_final run_restart s s' H) as [H1 _].
  - vm_compute. reflexivity.
  - split; [exact H1|]. vm_compute. split; reflexivity.
Defined.

(** ** The wait group of the accept routines *)

Lemma released_count_zero (l : list AcceptTask) :
  Forall released l -> pending_count l = 0%nat.
Proof.
  unfold pending_count. induction 1 as [|a l Ha _ IH]; [done|].
  rewrite filter_cons_False; [done|]. by apply not_pending.
Qed.

(** X2: in every state the manager can reach, [t.wg] counts the accept
    routines whose call of [t.wg.Done()] (line 240) is still to come, so
    the group is zero exactly when every routine has made that call.  A
    routine that has left its loop therefore finds the group positive:
    its [t.wg.Done()] does not panic, lowers the group by one and logs
    nothing.  The last event of the routine (line 241) comes after that
    call and leaves the group alone, so the group can be zero while a
    routine has still to report that event. *)
Theorem wg_counts_accept_routines (t : TCP) (s : Sys) :
  constructed t -> reachable t s ->
  wg (tcp s) = Z.of_nat (pending_count (tasks s)) /\
  (wg (tcp s) = 0%Z <-> Forall released (tasks s)) /\
  (forall o i a,
     panicked s = None -> tasks s !! i = Some a -> a_pc a = AcceptBreak ->
     exists s',
       step o (LAccept i) s = Some s' /\ panicked s' = None /\
       wg (tcp s') = (wg (tcp s) - 1)%Z /\
       effects_since s s' = [] /\
       tasks s' = <[i := at_pc AcceptShutdown a]> (tasks s)) /\
  (forall o i a,
     panicked s = None -> tasks s !! i = Some a -> a_pc a = AcceptShutdown ->
     exists s',
       step o (LAccept i) s = Some s' /\ panicked s' = None /\
       wg (tcp s') = wg (tcp s) /\
       effects_since s s' =
         [Event (a_traceID a) "accept" "Shutdown : IPAddress[ %s ]"
            [AStr (join_host (ipAddress (tcp s)) (port (tcp s)))]] /\
       tasks s' = <[i := at_pc AcceptDone a]> (tasks s)).
Proof.
  intros Hcon Hr. destruct (Inv_reachable t s Hcon Hr) as [_ Hw _ _ _ _ _].
  split; [done|]. split; [|split].
  - rewrite Hw. split.
    + intros H. apply pending_count_zero. lia.
    + intros H. by rewrite released_count_zero.
  - intros o i a Hp Hi Hpc.
    assert (Hpos : (0 < wg (tcp s))%Z).
    { rewrite Hw. destruct (insert_split (tasks s) i a a Hi) as [Heq _].
      rewrite Heq, pending_count_app. unfold pending_count at 2.
      rewrite filter_cons_True by (unfold pending; by rewrite Hpc). cbn. lia. }
    eexists. unfold step, accept_step, accept_enabled, accept_body.
    rewrite Hp, Hi, Hpc.
    destruct (Z.leb_spec (wg (tcp s)) 0) as [|_]; [lia|].
    split; [reflexivity|]. cbn. repeat (split; [done|]).
    split; [|done]. apply effects_since_app. cbn. by rewrite app_nil_r.
  - intros o i a Hp Hi Hpc.
    eexists. unfold step, accept_step, accept_enabled, accept_body.
    rewrite Hp, Hi, Hpc. split; [reflexivity|]. cbn.
    repeat (split; [done|]). split; [|done]. by apply effects_since_app.
Qed.

Lemma wg_counts_accept_routines_witness :
  let s := after (run_start ++ run_accept ++ [(demo_o, LStop "s")] ++ run_in_stop)
                 (init (demo_tcp None)) in
  constructed (demo_tcp None) /\
  wg (tcp s) = Z.of_nat (pending_count (tasks s)) /\ wg (tcp s) = 0%Z /\
  Forall released (tasks s) /\
  map a_pc (tasks s) = [AcceptShutdown] /\ caller s = StopWait "s".
Proof.
  intros s. pose proof (demo_constructed None) as Hcon. split; [exact Hcon|].
  destruct (wg_counts_accept_routines (demo_tcp None) s Hcon) as (H1 & H2 & _).
  - exists (run_start ++ run_accept ++ [(demo_o, LStop "s")] ++ run_in_stop).
    vm_compute. reflexivity.
  - assert (Hz : wg (tcp s) = 0%Z) by (vm_compute; reflexivity).
    split; [exact H1|]. split; [exact Hz|].
    split; [exact (proj1 H2 Hz)|]. vm_compute. split; reflexivity.
Defined.

(** ** What reaches the pools and the caller *)

(** X3: a manager built on pools that the caller supplied never shuts a
    pool down, in no interleaving of [Start], [Stop], [Do] and the
    routines; and a pool that the manager shuts down is its receive or its
    send pool, and the manager owns them. *)
Theorem supplied_pools_are_never_shut_down (t : TCP) (s : Sys) :
  constructed t -> reachable t s ->
  (userPools t = true -> forall p traceID, PoolShutdown p traceID ∉ trace s) /\
  (forall p traceID, PoolShutdown p traceID ∈ trace s ->
     userPools t = false /\ (p = recv t \/ p = send t)).
Proof.
  intros Hcon Hr. destruct (Inv2_reachable t s Hcon Hr) as [_ _ Hlog _ _].
  rewrite Forall_forall in Hlog.
  assert (H : forall p traceID, PoolShutdown p traceID ∈ trace s ->
            userPools t = false /\ (p = recv t \/ p = send t)).
  { intros p tid Hin. apply (Hlog _ Hin). }
  split; [|done]. intros Hu p tid Hin. destruct (H p tid Hin) as [Hf _].
  congruence.
Qed.

Definition demo_supplied : TCP :=
  mkTCP (mkConfig "tcp4" "0.0.0.0:6000" (Some 5) (Some 6) 0%Z 0%Z 0%Z 0%Z None
                  (fun _ conn => (conn_id conn, conn_id conn)))
        "srv" "0.0.0.0" 6000%Z (mkTCPAddr "0.0.0.0" 6000%Z)
        None ∅ 5 6 true 0%Z 0%Z 0%Z zeroTime.

Lemma supplied_pools_are_never_shut_down_witness :
  let s := after (run_start ++ run_accept ++ run_stop ++ [(demo_o, LCaller)])
                 (init demo_supplied) in
  constructed demo_supplied /\
  last (trace s) = Some (Return "Stop" None) /\
  forall p traceID, PoolShutdown p traceID ∉ trace s.
Proof.
  intros s. assert (Hcon : constructed demo_supplied) by done.
  split; [exact Hcon|]. split; [vm_compute; reflexivity|].
  destruct (supplied_pools_are_never_shut_down demo_supplied s Hcon) as [H _].
  - exists (run_start ++ run_accept ++ run_stop ++ [(demo_o, LCaller)]).
    vm_compute. reflexivity.
  - apply H. reflexivity.
Defined.

(** X4: whatever happens, the only errors that [Start], [Stop] and [Do]
    ever return are the three of tcp.go: already started, already stopped,
    and address disconnected.  No error of [net.ListenTCP] or of [Accept]
    comes back to a caller. *)
Theorem returned_errors (t : TCP) (s : Sys) (op : string) (err : error) :
  constructed t -> reachable t s -> Return op (Some err) ∈ trace s ->
  op = "Start" /\ err = "This TCP has already been started" \/
  op = "Stop" /\ err = "This TCP has already been stopped" \/
  op = "Do" /\ exists addr, err = "IP Address disconnected [ " +:+ addr +:+ " ]".
Proof.
  intros Hcon Hr Hin. destruct (Inv2_reachable t s Hcon Hr) as [_ _ Hlog _ _].
  rewrite Forall_forall in Hlog. apply (Hlog _ Hin).
Qed.

Lemma returned_errors_witness :
  let s := after (run_start ++ [(demo_o, LStart "again")]) (init (demo_tcp None)) in
  constructed (demo_tcp None) /\
  last (trace s) = Some (Return "Start" (Some "This TCP has already been started")).
Proof.
  intros s. pose proof (demo_constructed None) as Hcon. split; [exact Hcon|].
  assert (Htr : last (trace s) =
                Some (Return "Start" (Some "This TCP has already been started")))
    by (vm_compute; reflexivity).
  destruct (returned_errors (demo_tcp None) s "Start"
              "This TCP has already been started" Hcon) as [[_ H]|[[H _]|[H _]]].
  - exists (run_start ++ [(demo_o, LStart "again")]). vm_compute. reflexivity.
  - apply last_Some_elem_of in Htr. exact Htr.
  - exact Htr.
  - discriminate H.
  - discriminate H.
Defined.

(** X5: every response that the manager has posted is on its send pool,
    carries the trace id of its [Do], the manager, and a client that was
    registered under the address of the response, and so can be worked:
    line 79 finds both pointers set, [Work] writes the response to the
    writer of that client and calls the completion callback if there is
    one, without a panic.  A response that lacks the manager or the
    client, as one that never went through [Do] does, makes [Work] panic
    on the nil pointer before anything is written. *)
Theorem posted_responses_can_be_worked (t : TCP) (s : Sys) :
  constructed t -> reachable t s ->
  (forall p traceID r, PoolDo p traceID (WorkResponse r) ∈ trace s ->
     p = send t /\ r_traceID r = traceID /\ r_tcp r = Some (Name t) /\
     exists c, r_client r = Some c /\ c_ipAddress c = r_TCPAddr r /\
       forall workID id s2,
         panicked (Response_Work workID id r s2) = panicked s2 /\
         effects_since s2 (Response_Work workID id r s2) =
           RespWrite workID r (c_writer c) ::
           match r_Complete r with
           | Some k => [RespComplete k r]
           | None => []
           end) /\
  (forall workID id r s2, r_tcp r = None \/ r_client r = None ->
     panicked (Response_Work workID id r s2) =
       Some "runtime error: invalid memory address or nil pointer dereference" /\
     effects_since s2 (Response_Work workID id r s2) = []).
Proof.
  intros Hcon Hr. destruct (Inv2_reachable t s Hcon Hr) as [_ _ Hlog _ _].
  rewrite Forall_forall in Hlog. split.
  - intros p tid r Hin. destruct (Hlog _ Hin) as (Hp & Ht & Htid & c & Hc & Ha).
    repeat (split; [done|]). exists c. split; [done|]. split; [done|].
    intros w id s2. unfold Response_Work. rewrite Ht, Hc.
    destruct (r_Complete r); cbn; (split; [done|]);
      apply effects_since_app; cbn; by rewrite <- ?app_assoc.
  - intros w id r s2 Hnil. unfold Response_Work.
    assert (Hno : effects_since s2 (panic ErrNilPointer s2) = []).
    { apply effects_since_app. cbn. by rewrite app_nil_r. }
    destruct Hnil as [Hnil|Hnil]; rewrite Hnil; [done|].
    by destruct (r_tcp r).
Qed.

Definition demo_response : Response :=
  mkResponse "10.0.0.5:5555" [] 0%Z (Some 3) None None "".

Lemma posted_responses_can_be_worked_witness :
  let s := after (run_start ++ run_accept ++ [(demo_o, LDo "d" demo_response)])
                 (init (demo_tcp None)) in
  let r := attach (demo_tcp None) demo_client "d" demo_response in
  constructed (demo_tcp None) /\
  PoolDo 2 "d" (WorkResponse r) ∈ trace s /\
  (exists c, r_client r = Some c /\
     effects_since s (Response_Work "w" 0%Z r s) =
       [RespWrite "w" r (c_writer c); RespComplete 3 r]) /\
  panicked (Response_Work "w" 0%Z demo_response s) =
    Some "runtime error: invalid memory address or nil pointer dereference".
Proof.
  intros s r. pose proof (demo_constructed None) as Hcon. split; [exact Hcon|].
  assert (Hin : PoolDo 2 "d" (WorkResponse r) ∈ trace s).
  { assert (Hl : trace s !! 6%nat = Some (PoolDo 2 "d" (WorkResponse r)))
      by (vm_compute; reflexivity).
    apply list_elem_of_lookup. exists 6%nat. exact Hl. }
  split; [exact Hin|].
  destruct (posted_responses_can_be_worked (demo_tcp None) s Hcon) as [H Hnil].
  - exists (run_start ++ run_accept ++ [(demo_o, LDo "d" demo_response)]).
    vm_compute. reflexivity.
  - split.
    + destruct (H 2 "d" r Hin) as (_ & _ & _ & c & Hc & _ & Hw).
      exists c. split; [exact Hc|]. apply Hw.
    + apply (Hnil "w" 0%Z demo_response s). left. reflexivity.
Defined.

(** ** The registry in every reachable state *)

Lemma registered_registry_ok (s : Sys) : registered_ok s -> registry_ok (tcp s).
Proof. intros H k c Hk. by destruct (H k c Hk). Qed.

(** X6: in every state the manager can reach, through any interleaving
    of [join], [remove], [Stop] and the rest, a registered client sits
    under the remote address of its own socket and was created by [join]
    with its read routine started, and no address has two clients.  So a
    response that [Do] accepts is bound to the client whose socket has
    the address of the response. *)
Theorem registry_in_every_state (t : TCP) (s : Sys) :
  constructed t -> reachable t s ->
  (forall k c, clients (tcp s) !! k = Some c ->
     c_ipAddress c = k /\ RemoteAddr (c_conn c) = k /\ GoRead c ∈ trace s) /\
  (forall a, length (clients_at a (tcp s)) <= 1) /\
  (forall traceID r, (Do traceID r s).1.1 = None ->
     exists c, r_client (Do traceID r s).1.2 = Some c /\
               RemoteAddr (c_conn c) = r_TCPAddr r).
Proof.
  intros Hcon Hr. destruct (Inv2_reachable t s Hcon Hr) as [Hreg _ _ _ _].
  split; [done|]. split.
  - intros a. by apply registry_one_per_address, registered_registry_ok.
  - intros tid r. unfold Do.
    destruct (clients (tcp s) !! r_TCPAddr r) as [c|] eqn:Hc; [|done].
    intros _. exists c. split; [done|]. by destruct (Hreg _ _ Hc) as (_ & ? & _).
Qed.

Lemma registry_in_every_state_witness :
  let s := after (run_start ++ run_accept) (init (demo_tcp None)) in
  constructed (demo_tcp None) /\
  clients (tcp s) !! "10.0.0.5:5555" = Some demo_client /\
  (forall a, length (clients_at a (tcp s)) <= 1) /\
  GoRead demo_client ∈ trace s.
Proof.
  intros s. pose proof (demo_constructed None) as Hcon. split; [exact Hcon|].
  assert (Hc : clients (tcp s) !! "10.0.0.5:5555" = Some demo_client)
    by (vm_compute; reflexivity).
  split; [exact Hc|].
  destruct (registry_in_every_state (demo_tcp None) s Hcon) as (H1 & H2 & _).
  - exists (run_start ++ run_accept). vm_compute. reflexivity.
  - split; [exact H2|]. destruct (H1 _ _ Hc) as (_ & _ & H). exact H.
Defined.

(** ** Addr *)

Section Address.
(** The [Addr] method of [net.TCPListener] is the net package's. *)
Variable ListenerAddr : Listener -> string.

(** [Addr] of the manager (lines 352-359); the name [Addr] is taken by the
    field of [Config]. *)
Definition TCP_Addr (s : Sys) : option string :=
  match listener (tcp s) with
  | None => None
  | Some l => Some (ListenerAddr l)
  end.

(** X7: [Addr] returns nil on a manager that was never started and on one
    whose [Stop] has just returned nil.  When it returns an address, it is
    the address of a listener that [net.ListenTCP] returned, and some
    accept routine is still in its loop. *)
Theorem Addr_of_bound_listener (t : TCP) (s : Sys) :
  constructed t -> reachable t s ->
  TCP_Addr (init t) = None /\
  (forall addr, TCP_Addr s = Some addr ->
     exists l, addr = ListenerAddr l /\ listener (tcp s) = Some l /\
               ListenTCP l ∈ trace s /\ Exists looping (tasks s)) /\
  (forall o traceID s',
     caller s = StopWait traceID -> caller_step o s = Some s' ->
     TCP_Addr s' = None).
Proof.
  intros Hcon Hr. split; [|split].
  - unfold TCP_Addr. cbn. by destruct Hcon as [-> _].
  - intros addr. unfold TCP_Addr.
    destruct (listener (tcp s)) as [l|] eqn:Hl; [|done]. intros [= <-].
    exists l. split; [done|]. split; [done|]. split.
    + destruct (Inv2_reachable t s Hcon Hr) as [_ Hb _ _ _]. by apply Hb.
    + destruct (Inv_reachable t s Hcon Hr) as [_ _ Hlo _ _ _ _].
      apply Hlo. rewrite Hl. by eexists.
  - intros o tid s' Hca Hstep.
    destruct (Stop_returns t tid s s' o Hcon Hr Hca Hstep) as (_ & _ & Hl & _).
    unfold TCP_Addr. by rewrite Hl.
Qed.
End Address.

Lemma Addr_of_bound_listener_witness :
  let s := after run_start (init (demo_tcp None)) in
  let addr_of := fun l : Listener => "0.0.0.0:" +:+ pretty (6000 + Z.of_nat l)%Z in
  constructed (demo_tcp None) /\
  TCP_Addr addr_of s = Some "0.0.0.0:6007" /\
  ListenTCP 7 ∈ trace s.
Proof.
  intros s addr_of. pose proof (demo_constructed None) as Hcon.
  split; [exact Hcon|].
  assert (Ha : TCP_Addr addr_of s = Some "0.0.0.0:6007") by (vm_compute; reflexivity).
  split; [exact Ha|].
  destruct (Addr_of_bound_listener addr_of (demo_tcp None) s Hcon) as (_ & H & _).
  - exists run_start. vm_compute. reflexivity.
  - destruct (H _ Ha) as (l & _ & Hl & Hin & _).
    assert (l = 7) as <-; [|exact Hin].
    assert (Hl7 : listener (tcp s) = Some 7) by (vm_compute; reflexivity).
    congruence.
Defined.

(** ** join, Do and remove together *)

(** X8: for a connection from an address that is not registered, [Do] to
    that address fails before the [join], succeeds after it with the
    response bound to the client made from that very socket, and fails
    again after the [remove], which puts the registry back as it was. *)
Theorem join_Do_remove (traceID joinID removeID : string) (conn : Conn)
    (r : Response) (s : Sys) :
  clients (tcp s) !! RemoteAddr conn = None ->
  r_TCPAddr r = RemoteAddr conn ->
  let disconnected :=
    Some ("IP Address disconnected [ " +:+ RemoteAddr conn +:+ " ]") in
  let s1 := join joinID conn s in
  let s2 := remove removeID conn s1 in
  (Do traceID r s).1.1 = disconnected /\
  (Do traceID r s1).1.1 = None /\
  (exists c, r_client (Do traceID r s1).1.2 = Some c /\ c_conn c = conn /\
             c_writer c = (Bind (cfg (tcp s)) (joinID +:+ "-" +:+ RemoteAddr conn) conn).2) /\
  clients (tcp s2) = clients (tcp s) /\
  (Do traceID r s2).1.1 = disconnected /\
  ConnClose conn ∈ effects_since s1 s2.
Proof.
  intros Hc Hr disconnected s1 s2. subst disconnected s1 s2.
  destruct (join_absent joinID conn s Hc) as (Ht & _ & _).
  set (c := joined_client joinID conn s) in *.
  assert (Hc1 : clients (tcp (join joinID conn s)) !! RemoteAddr conn = Some c).
  { rewrite Ht. cbn. apply lookup_insert_eq. }
  rewrite (remove_present _ _ _ _ Hc1).
  split; [unfold Do; by rewrite Hr, Hc|].
  split; [unfold Do; by rewrite Hr, Hc1|].
  split; [exists c; unfold Do; by rewrite Hr, Hc1|].
  assert (Hback : delete (RemoteAddr conn) (clients (tcp (join joinID conn s)))
                  = clients (tcp s)).
  { rewrite Ht. cbn. rewrite delete_insert_eq. by apply delete_id. }
  split; [cbn; exact Hback|].
  split.
  - unfold Do. cbn. by rewrite Hr, Hback, Hc.
  - rewrite (effects_since_app _ _
      [Event removeID "remove" "IPAddress[ %s ]" [AStr (RemoteAddr conn)];
       ConnClose conn]) by done.
    right. left.
Qed.

Lemma join_Do_remove_witness :
  let s := after run_start (init (demo_tcp None)) in
  let s1 := join "t" demo_conn s in
  clients (tcp s) !! RemoteAddr demo_conn = None /\
  (Do "d" demo_response s).1.1 =
    Some "IP Address disconnected [ 10.0.0.5:5555 ]" /\
  (Do "d" demo_response s1).1.1 = None /\
  clients (tcp (remove "t" demo_conn s1)) = clients (tcp s).
Proof.
  intros s s1.
  assert (Hc : clients (tcp s) !! RemoteAddr demo_conn = None)
    by (vm_compute; reflexivity).
  split; [exact Hc|].
  destruct (join_Do_remove "d" "t" "t" demo_conn demo_response s Hc)
    as (H1 & H2 & _ & H4 & _); [reflexivity|].
  split; [exact H1|]. split; [exact H2|exact H4].
Defined.

(** X9: [remove] twice for the same connection: the first call deletes
    the entry and closes the socket, the second reports that the address
    was already removed, leaves the manager as the first left it and
    closes nothing.  For an address that was never registered both calls
    only report. *)
Theorem remove_twice (traceID : string) (conn : Conn) (s : Sys) :
  let s1 := remove traceID conn s in
  let s2 := remove traceID conn s1 in
  tcp s2 = tcp s1 /\
  clients (tcp s2) !! RemoteAddr conn = None /\
  effects_since s1 s2 =
    [Event traceID "remove" "IPAddress[ %s ]" [AStr (RemoteAddr conn)];
     Event traceID "remove" "ERROR : %v"
       [AErr ("IP Address already removed [ " +:+ RemoteAddr conn +:+ " ]")]] /\
  (forall k, k <> RemoteAddr conn ->
     clients (tcp s2) !! k = clients (tcp s) !! k).
Proof.
  intros s1 s2.
  assert (H1 : clients (tcp s1) !! RemoteAddr conn = None).
  { subst s1. destruct (clients (tcp s) !! RemoteAddr conn) as [c|] eqn:Hc.
    - rewrite (remove_present _ _ _ _ Hc). cbn. apply lookup_delete_eq.
    - by rewrite (remove_absent _ _ _ Hc). }
  subst s2. rewrite (remove_absent _ _ _ H1).
  split; [done|]. split; [done|]. split; [by apply effects_since_app|].
  intros k Hk. cbn. subst s1.
  destruct (clients (tcp s) !! RemoteAddr conn) as [c|] eqn:Hc.
  - rewrite (remove_present _ _ _ _ Hc). cbn. by apply lookup_delete_ne.
  - by rewrite (remove_absent _ _ _ Hc).
Qed.

(** ** Who writes the drop flag and the time stamp *)

Lemma join_keeps_flags (traceID : string) (conn : Conn) (s : Sys) :
  dropConns (tcp (join traceID conn s)) = dropConns (tcp s) /\
  lastAcceptedConnection (tcp (join traceID conn s)) =
    lastAcceptedConnection (tcp s).
Proof.
  destruct (clients (tcp s) !! RemoteAddr conn) as [c0|] eqn:H.
  - by rewrite (join_present _ _ _ _ H).
  - by destruct (join_absent traceID conn s H) as (-> & _).
Qed.

Lemma remove_keeps_flags (traceID : string) (conn : Conn) (s : Sys) :
  dropConns (tcp (remove traceID conn s)) = dropConns (tcp s).
Proof.
  destruct (clients (tcp s) !! RemoteAddr conn) as [c0|] eqn:H.
  - by rewrite (remove_present _ _ _ _ H).
  - by rewrite (remove_absent _ _ _ H).
Qed.

Lemma step_keeps_drop (o : Oracle) (l : label) (s s' : Sys) :
  (forall traceID b, l <> LDropConnections traceID b) ->
  step o l s = Some s' -> dropConns (tcp s') = dropConns (tcp s).
Proof.
  intros Hl. unfold step. destruct (panicked s); [done|].
  destruct l as [tid|tid| |i|k|tid r|tid b].
  - destruct (is_idle (caller s)); [|done]. intros [= <-].
    unfold Start_check. by destruct (listener (tcp s)).
  - destruct (is_idle (caller s)); [|done]. intros [= <-].
    unfold Stop_check. by destruct (listener (tcp s)).
  - unfold caller_step. destruct (caller s); repeat case_match; try done;
      by intros [= <-].
  - unfold accept_step. destruct (tasks s !! i) as [a|]; [|done].
    destruct (accept_enabled a); [|done].
    destruct (accept_body o a s) as [a' s1] eqn:Hb. intros [= <-]. cbn.
    revert Hb. unfold accept_body.
    destruct (a_pc a) as [| |e| |e| |conn|conn|conn| | |]; repeat case_match;
      intros [= <- <-]; try done.
    by destruct (join_keeps_flags (a_traceID a) conn s).
  - unfold pipe_step. destruct (pipes s !! k) as [p|]; [|done].
    destruct (p_state p); [|done].
    destruct (pipe_body o p s) as [p' s1] eqn:Hb. intros [= <-]. cbn.
    revert Hb. unfold pipe_body. repeat case_match; intros [= <- <-]; try done.
    apply remove_keeps_flags.
  - unfold Do. by destruct (clients (tcp s) !! r_TCPAddr r); intros [= <-].
  - by destruct (Hl tid b).
Qed.

Definition no_DropConnections (ls : list (Oracle * label)) : Prop :=
  Forall (fun ol => forall traceID b, ol.2 <> LDropConnections traceID b) ls.

(** X10: only [DropConnections] writes the drop flag.  A call stores 1
    for true and 0 for false whatever the flag was, so the last call
    wins, and along any run without a call the flag keeps its value: not
    [Stop], [Start], [Do] nor any routine resets it, and a manager that
    was dropping connections when it was stopped is still dropping them
    if it is started again. *)
Theorem drop_flag_is_written_by_DropConnections_only
    (traceID : string) (b : bool) (ls : list (Oracle * label)) (s s' : Sys) :
  no_DropConnections ls ->
  run ls (DropConnections traceID b s) = Some s' ->
  dropConns (tcp s') = (if b then 1 else 0)%Z /\
  (forall o conn a,
     (serve o conn a s').1 = at_pc AcceptTop a /\
     (b = true ->
        clients (tcp (serve o conn a s').2) = clients (tcp s') /\
        ConnClose conn ∈ effects_since s' (serve o conn a s').2)).
Proof.
  intros Hls Hr.
  assert (Hd : dropConns (tcp s') = dropConns (tcp (DropConnections traceID b s))).
  { revert Hr. generalize (DropConnections traceID b s). intros s0.
    revert s0. induction ls as [|[o l] ls IH]; intros s0; cbn.
    - by intros [= <-].
    - apply Forall_cons in Hls as [Hl Hls].
      destruct (step o l s0) as [s1|] eqn:Hs; [|done]. intros Hr.
      rewrite (IH Hls _ Hr). by eapply step_keeps_drop. }
  assert (Hb : dropConns (tcp s') = (if b then 1 else 0)%Z)
    by (rewrite Hd; by destruct b).
  split; [done|]. intros o conn a. split.
  - unfold serve. cbn. rewrite Hb. destruct b; cbn; [done|].
    destruct (RateLimit (cfg (tcp s'))); [|done].
    by destruct (Time_After _ _).
  - intros ->. rewrite serve_dropping by done. cbn. split; [done|].
    rewrite effects_since_emit. right. left.
Qed.

Lemma drop_flag_is_written_by_DropConnections_only_witness :
  let s := after run_start (init (demo_tcp None)) in
  let ls := run_restart ++ [(demo_o, LAccept 1); (demo_o, LAccept 1)] in
  let s' := after ls (DropConnections "d" true
                        (after [(demo_o, LStop "s"); (demo_o, LCaller)] s)) in
  no_DropConnections ls /\
  dropConns (tcp s') = 1%Z /\
  map a_pc (tasks s') = [AcceptDone; AcceptTop] /\
  clients (tcp s') = ∅.
Proof.
  intros s ls s'.
  assert (Hls : no_DropConnections ls).
  { repeat (apply Forall_cons; split; [intros ? ?; discriminate|]).
    apply Forall_nil. done. }
  split; [exact Hls|].
  destruct (drop_flag_is_written_by_DropConnections_only "d" true ls
              (after [(demo_o, LStop "s"); (demo_o, LCaller)] s) s' Hls)
    as [H _].
  - vm_compute. reflexivity.
  - split; [exact H|]. vm_compute. split; reflexivity.
Defined.

Lemma serve_stamp (o : Oracle) (conn : Conn) (a : AcceptTask) (s : Sys) :
  let s' := (serve o conn a s).2 in
  cfg (tcp s') = cfg (tcp s) /\
  (lastAcceptedConnection (tcp s') = lastAcceptedConnection (tcp s) \/
   exists limit, RateLimit (cfg (tcp s)) = Some limit /\
     lastAcceptedConnection (tcp s') = o_now o /\
     (lastAcceptedConnection (tcp s) + limit () <= o_now o)%Z).
Proof.
  intros s'. subst s'.
  destruct (decide (dropConns (tcp s) = 1%Z)) as [Hd|Hd].
  { rewrite serve_dropping by done. split; [done|by left]. }
  destruct (RateLimit (cfg (tcp s))) as [limit|] eqn:Hl.
  - destruct (decide (o_now o < lastAcceptedConnection (tcp s) + limit ())%Z)
      as [Hn|Hn].
    + rewrite (serve_limited _ _ _ _ limit) by done. split; [done|by left].
    + rewrite (serve_passed _ _ _ _ limit) by (done || lia). cbn.
      match goal with |- context [join ?t ?c ?x] =>
        destruct (join_extends t c x) as (_ & (Hc & _) & _);
        destruct (join_keeps_flags t c x) as [_ Hla] end.
      split; [done|]. right. exists limit. split; [done|].
      split; [done|lia].
  - rewrite serve_unlimited by done. cbn.
    destruct (join_extends (a_traceID a) conn s) as (_ & (Hc & _) & _).
    destruct (join_keeps_flags (a_traceID a) conn s) as [_ Hla].
    split; [done|by left].
Qed.

(** X11: the time of the last accepted connection is written by the rate
    limit test alone.  Without a limiter it is never written.  With one,
    an arrival either leaves it alone or sets it to the time of that
    arrival, which is then at least the limit later than the old value;
    so with a limit that is not negative it never goes back, whatever the
    arrivals and however the clock jumps. *)
Theorem time_stamp_moves_forward (a : AcceptTask) (arrivals : list (Time * Conn))
    (s : Sys) :
  (RateLimit (cfg (tcp s)) = None ->
     lastAcceptedConnection (tcp (serve_all a arrivals s)) =
       lastAcceptedConnection (tcp s)) /\
  (forall limit, RateLimit (cfg (tcp s)) = Some limit -> (0 <= limit ())%Z ->
     (lastAcceptedConnection (tcp s) <=
        lastAcceptedConnection (tcp (serve_all a arrivals s)))%Z) /\
  (forall limit now conn, RateLimit (cfg (tcp s)) = Some limit ->
     let s' := (serve (arrival now conn) conn a s).2 in
     lastAcceptedConnection (tcp s') = lastAcceptedConnection (tcp s) \/
     lastAcceptedConnection (tcp s') = now /\
     (lastAcceptedConnection (tcp s) + limit () <= now)%Z).
Proof.
  assert (Hcfg : cfg (tcp (serve_all a arrivals s)) = cfg (tcp s)).
  { induction arrivals as [|[now conn] arrivals IH] using rev_ind; [done|].
    rewrite serve_all_snoc.
    destruct (serve_stamp (arrival now conn) conn a (serve_all a arrivals s))
      as [Hc _]. congruence. }
  split; [|split].
  - intros Hl. induction arrivals as [|[now conn] arrivals IH] using rev_ind;
      [done|].
    assert (Hc : cfg (tcp (serve_all a arrivals s)) = cfg (tcp s)).
    { clear IH Hcfg.
      induction arrivals as [|[now' conn'] arrivals IH] using rev_ind; [done|].
      rewrite serve_all_snoc.
      destruct (serve_stamp (arrival now' conn') conn' a (serve_all a arrivals s))
        as [Hc _]. congruence. }
    rewrite serve_all_snoc.
    destruct (serve_stamp (arrival now conn) conn a (serve_all a arrivals s))
      as [_ [Hs|(limit & Hl' & _)]].
    + rewrite Hs. apply IH. by rewrite Hc.
    + rewrite Hc, Hl in Hl'. discriminate.
  - intros limit Hl Hpos.
    induction arrivals as [|[now conn] arrivals IH] using rev_ind; [done|].
    assert (Hc : cfg (tcp (serve_all a arrivals s)) = cfg (tcp s)).
    { clear IH Hcfg.
      induction arrivals as [|[now' conn'] arrivals IH] using rev_ind; [done|].
      rewrite serve_all_snoc.
      destruct (serve_stamp (arrival now' conn') conn' a (serve_all a arrivals s))
        as [Hc _]. congruence. }
    rewrite serve_all_snoc.
    destruct (serve_stamp (arrival now conn) conn a (serve_all a arrivals s))
      as [_ [Hs|(limit' & Hl' & Hs & Hle)]].
    + rewrite Hs. apply IH. by rewrite Hc.
    + rewrite Hc, Hl in Hl'. injection Hl' as <-.
      assert (lastAcceptedConnection (tcp s) <=
              lastAcceptedConnection (tcp (serve_all a arrivals s)))%Z
        by (apply IH; by rewrite Hc).
      rewrite Hs. cbn in *. lia.
  - intros limit now conn Hl s'. subst s'.
    destruct (serve_stamp (arrival now conn) conn a s)
      as [_ [Hs|(limit' & Hl' & Hs & Hle)]]; [by left|].
    right. rewrite Hl in Hl'. injection Hl' as <-. done.
Qed.

(** ** Every accepted connection is closed or registered *)

(** X12: what becomes of a connection that [Accept] returned.  Either
    the routine closes it and the registry and the pipelines stay as they
    were (the manager is dropping connections, the rate limit says so, or
    the address is registered already), or the address was free and the
    connection is registered under it with a read routine of its own and
    no socket is closed.  It is never both and never neither, and the
    routine is back at the head of its loop. *)
Theorem accepted_is_closed_or_registered (o : Oracle) (conn : Conn)
    (a : AcceptTask) (s : Sys) :
  let s' := (serve o conn a s).2 in
  let c := joined_client (a_traceID a) conn s in
  (serve o conn a s).1 = at_pc AcceptTop a /\
  (ConnClose conn ∈ effects_since s s' /\
   clients (tcp s') = clients (tcp s) /\ pipes s' = pipes s \/
   (forall k, ConnClose k ∉ effects_since s s') /\
   clients (tcp s) !! RemoteAddr conn = None /\
   clients (tcp s') = <[RemoteAddr conn := c]> (clients (tcp s)) /\
   pipes s' = pipes s ++ [mkPipe c Reading]).
Proof.
  intros s' c. subst s' c.
  assert (Hjoin : forall s0, clients (tcp s0) = clients (tcp s) ->
            pipes s0 = pipes s -> cfg (tcp s0) = cfg (tcp s) ->
            trace s0 = trace s ->
            let s' := join (a_traceID a) conn s0 in
            ConnClose conn ∈ effects_since s s' /\
            clients (tcp s') = clients (tcp s) /\ pipes s' = pipes s \/
            (forall k, ConnClose k ∉ effects_since s s') /\
            clients (tcp s) !! RemoteAddr conn = None /\
            clients (tcp s') =
              <[RemoteAddr conn := joined_client (a_traceID a) conn s]>
                (clients (tcp s)) /\
            pipes s' = pipes s ++ [mkPipe (joined_client (a_traceID a) conn s) Reading]).
  { intros s0 Hc Hp Hcfg Htr s'. subst s'.
    destruct (clients (tcp s0) !! RemoteAddr conn) as [c0|] eqn:H.
    - left. rewrite (join_present _ _ _ _ H). cbn. rewrite Hc, Hp.
      split; [|done]. erewrite effects_since_app; [|cbn; by rewrite Htr].
      right. right. left.
    - right. destruct (join_absent (a_traceID a) conn s0 H) as (Ht & Hp' & Htr' & _).
      rewrite Ht, Hp'. cbn. unfold joined_client. rewrite Hc, Hp, Hcfg.
      split; [|by rewrite <- Hc].
      intros k. erewrite effects_since_app; [|by rewrite Htr', Htr].
      not_in_log. }
  destruct (decide (dropConns (tcp s) = 1%Z)) as [Hd|Hd].
  { rewrite serve_dropping by done. split; [done|]. left. cbn.
    split; [|done]. rewrite effects_since_emit. right. left. }
  destruct (RateLimit (cfg (tcp s))) as [limit|] eqn:Hl.
  - destruct (decide (o_now o < lastAcceptedConnection (tcp s) + limit ())%Z)
      as [Hn|Hn].
    + rewrite (serve_limited _ _ _ _ limit) by done. split; [done|]. left. cbn.
      split; [|done]. rewrite effects_since_emit. right. left.
    + rewrite (serve_passed _ _ _ _ limit) by (done || lia). split; [done|].
      cbn. by apply Hjoin.
  - rewrite serve_unlimited by done. split; [done|]. cbn. by apply Hjoin.
Qed.

(** ** New *)

(** X13: what [New] returns.  It fails with the first error among those
    of [Validate], of [net.ResolveTCPAddr], of [pool.New] for the receive
    pool and of [pool.New] for the send pool, and it asks for a pool only
    when the configuration supplies none.  When it succeeds the manager
    has the resolved address, the supplied pools or pools created under
    the names name-Recv and name-Send with the configured sizes, no
    listener and no client; so until it is started [Stop] is refused and
    [Do] fails for every response. *)
Theorem New_result
    (Validate : Config -> option error)
    (ResolveTCPAddr : string -> string -> error + TCPAddr)
    (pool_New : string -> string -> PoolConfig -> error + Pool)
    (traceID name : string) (c : Config) :
  let made_recv :=
    pool_New traceID (name +:+ "-Recv")
             (mkPoolConfig (RecvMinPoolSize c) (RecvMaxPoolSize c)) in
  let made_send :=
    pool_New traceID (name +:+ "-Send")
             (mkPoolConfig (SendMinPoolSize c) (SendMaxPoolSize c)) in
  match New Validate ResolveTCPAddr pool_New traceID name c with
  | inl err =>
    Validate c = Some err \/
    Validate c = None /\
    (ResolveTCPAddr (NetType c) (Addr c) = inl err \/
     exists addr, ResolveTCPAddr (NetType c) (Addr c) = inr addr /\
       (RecvPool c = None /\ made_recv = inl err \/
        (RecvPool c = None -> exists p, made_recv = inr p) /\
        SendPool c = None /\ made_send = inl err))
  | inr t =>
    Validate c = None /\
    ResolveTCPAddr (NetType c) (Addr c) = inr (tcpAddr t) /\
    ipAddress t = IP (tcpAddr t) /\ port t = Port (tcpAddr t) /\
    cfg t = c /\ Name t = name /\ constructed t /\
    match RecvPool c with
    | Some p => recv t = p /\ userPools t = true
    | None => made_recv = inr (recv t) /\ userPools t = false
    end /\
    match SendPool c with
    | Some p => send t = p
    | None => made_send = inr (send t)
    end /\
    (forall stopID, Stop_check stopID (init t) = Stop_refused (init t)) /\
    (forall doID r, (Do doID r (init t)).1.1 =
       Some ("IP Address disconnected [ " +:+ r_TCPAddr r +:+ " ]"))
  end.
Proof.
  intros made_recv made_send. subst made_recv made_send. unfold New.
  destruct (Validate c) as [e|] eqn:Hv; [by left|].
  destruct (ResolveTCPAddr (NetType c) (Addr c)) as [e|addr] eqn:Hres.
  { right. split; [done|]. by left. }
  destruct (RecvPool c) as [rp|] eqn:Hrp.
  - destruct (SendPool c) as [sp|] eqn:Hsp.
    + cbn. repeat (split; [done|]).
      intros doID r. unfold Do. cbn. by rewrite lookup_empty.
    + destruct (pool_New traceID (name +:+ "-Send") _) as [e|sp] eqn:Hs.
      * right. split; [done|]. right.
        exists addr. split; [done|]. right. split; [done|]. done.
      * cbn. repeat (split; [done|]).
        intros doID r. unfold Do. cbn. by rewrite lookup_empty.
  - destruct (pool_New traceID (name +:+ "-Recv") _) as [e|rp] eqn:Hr.
    { right. split; [done|]. right.
      exists addr. split; [done|]. left. done. }
    destruct (SendPool c) as [sp|] eqn:Hsp.
    + cbn. repeat (split; [done|]).
      intros doID r. unfold Do. cbn. by rewrite lookup_empty.
    + destruct (pool_New traceID (name +:+ "-Send") _) as [e|sp] eqn:Hs.
      * right. split; [done|]. right.
        exists addr. split; [done|]. right.
        split; [intros _; by eexists|done].
      * cbn. repeat (split; [done|]).
        intros doID r. unfold Do. cbn. by rewrite lookup_empty.
Qed.
